(** * DMM-DYN4 serial protocol: frame codec, frame reader, value decoder
      and command session of [dmm_dyn4/dyn4.py]

    The Python module drives a DMM DYN4 servo drive over a serial line.
    This development embeds the protocol part of class [DMMDrive]
    shallowly: Python integers are [Z] (unbounded, with the bit
    operations of [Z], which agree with Python's on negative numbers
    too), Python lists of integers are [list Z], the status and
    configuration dictionaries are [gmap string string], exceptions are
    a sum type, and the serial port together with the standard output is
    an explicit state threaded by a small state-and-exception monad.

    The module is Python 2 code ([from __future__ import print_function],
    [serial.read] compared against the [str] ['']): a read that times
    out returns [''] and is modelled by [None] in the receive queue. *)

From stdpp Require Import base numbers list strings gmap.

Local Open Scope Z_scope.

(** ** Python run-time model *)

Module Py.

(** Exceptions that the modelled code can raise: the module's own
    [DMMException] subclasses and the built-in ones reachable from the
    modelled statements. *)
Inductive exn : Type :=
| DMMExceptionUnexpectedLength (n expected_n : Z)
| DMMExceptionTruncatedWrite (n expected_n : Z)
| DMMExceptionUnknownFunctionID (func_id : Z)
| DMMExceptionUnexpectedFunc
| IndexError
| KeyError
| TypeError
| ValueError
| UnboundLocalError.

(** Outcome of evaluating a statement or expression. *)
Inductive result (A : Type) : Type :=
| Ret (a : A)
| Raise (e : exn).
Arguments Ret {A} a.
Arguments Raise {A} e.

(** Values that [read_response] leaves in its local [x]: an [int], a
    list of [int] (gear numbers) or a [dict] from [str] to [str]. *)
Inductive value : Type :=
| VInt (z : Z)
| VList (l : list Z)
| VDict (d : gmap string string).

(** [len(l)] *)
Definition len {A} (l : list A) : Z := Z.of_nat (length l).

(** [sum(l)] *)
Definition sum (l : list Z) : Z := fold_left Z.add l 0.

(** [l[i]] for a non-negative literal index [i]. *)
Definition getitem (l : list Z) (i : nat) : result Z :=
  match l !! i with
  | Some v => Ret v
  | None => Raise IndexError
  end.

(** [l[-1]] *)
Definition getlast (l : list Z) : result Z :=
  match last l with
  | Some v => Ret v
  | None => Raise IndexError
  end.

(** [l[:-1]] *)
Definition but_last (l : list Z) : list Z := removelast l.

(** [l[2:-1]] *)
Definition slice_2_m1 (l : list Z) : list Z := removelast (drop 2 l).

(** [bytearray(l)]: every item must be in [range(256)]. *)
Definition bytearray (l : list Z) : result (list Z) :=
  if forallb (fun b => (0 <=? b) && (b <? 256)) l then Ret l
  else Raise ValueError.

(** [d[k]] on a table of integer codes. *)
Definition getkey (d : gmap string Z) (k : string) : result Z :=
  match d !! k with
  | Some v => Ret v
  | None => Raise KeyError
  end.

(** Truth value of an [int] used as a condition. *)
Definition truthy (z : Z) : bool := negb (z =? 0).

(** Truth value of a list used as a condition. *)
Definition nonempty {A} (l : list A) : bool :=
  match l with [] => false | _ :: _ => true end.

End Py.
Import Py.

(** ** The serial port and the console *)

(** Lines that the modelled code prints unconditionally (the prints
    guarded by [self.debug], which [__init__] sets to [False] and nothing
    sets afterwards, are left out). *)
Inductive line : Type :=
| Unallowed_address_read (func_id : Z)
| Unknown_address_read (func_id : Z)
| Hex (x : Z).

(** The world the drive object acts on.  [rx] is what successive
    [serial.read(1)] calls return: [Some b] a byte, [None] a timeout; an
    exhausted queue times out.  [tx] collects what was written, [wlimit]
    is how many bytes the port accepts in one [serial.write]. *)
Record world : Type := World {
  rx : list (option Z);
  tx : list Z;
  wlimit : nat;
  stdout : list line
}.

Definition set_rx (w : world) (q : list (option Z)) : world :=
  World q (tx w) (wlimit w) (stdout w).

(** State and exception monad. *)
Definition M (A : Type) : Type := world -> result A * world.

Definition ret {A} (a : A) : M A := fun w => (Ret a, w).
Definition raise {A} (e : exn) : M A := fun w => (Raise e, w).
Definition bind {A B} (m : M A) (k : A -> M B) : M B :=
  fun w => match m w with
           | (Ret a, w') => k a w'
           | (Raise e, w') => (Raise e, w')
           end.
Definition lift {A} (r : result A) : M A := fun w => (r, w).

Declare Scope py_scope.
Delimit Scope py_scope with py.
Notation "x <- m ;; k" := (bind m (fun x => k))
  (at level 100, m at next level, right associativity) : py_scope.
Notation "m ;;; k" := (bind m (fun _ => k))
  (at level 100, right associativity) : py_scope.
Local Open Scope py_scope.

(** [print(...)] *)
Definition print (l : line) : M unit :=
  fun w => (Ret tt, World (rx w) (tx w) (wlimit w) (stdout w ++ [l])).

(** [self.serial.write(packet)]: returns the number of bytes written. *)
Definition serial_write (packet : list Z) : M Z :=
  fun w => let sent := take (wlimit w) packet in
           (Ret (len sent), World (rx w) (tx w ++ sent) (wlimit w) (stdout w)).

(** ** Module-level helper *)

(** [sign_extend(value, bits)] *)
Definition sign_extend (value bits : Z) : Z :=
  let sign_bit := 1 ≪ (bits - 1) in
  Z.land value (sign_bit - 1) - Z.land value sign_bit.

(** ** Frame codec: the request builders of [DMMDrive] *)

(** [host_fids] *)
Definition host_fids : gmap string Z :=
  list_to_map
    [("Set_Origin", 0x00); ("Go_Absolute_Pos", 0x01); ("Make_LinearLine", 0x02);
     ("Go_Relative_Pos", 0x03); ("Make_CircularArc", 0x04);
     ("Assign_Drive_ID", 0x05); ("Read_Drive_ID", 0x06);
     ("Set_Drive_Config", 0x07); ("Read_Drive_Config", 0x08);
     ("Read_Drive_Status", 0x09); ("Turn_ConstSpeed", 0x0a);
     ("Square_Wave", 0x0b); ("Sin_Wave", 0x0c); ("SS_Frequency", 0x0d);
     ("General_Read", 0x0e); ("ForMotorDefine", 0x0f); ("Set_MainGain", 0x10);
     ("Set_SpeedGain", 0x11); ("Set_IntGain", 0x12); ("Set_TrqCons", 0x13);
     ("Set_HighSpeed", 0x14); ("Set_HighAccel", 0x15);
     ("Set_Pos_OnRange", 0x16); ("Set_GearNumber", 0x17);
     ("Read_MainGain", 0x18); ("Read_SpeedGain", 0x19); ("Read_IntGain", 0x1a);
     ("Read_TrqCons", 0x1b); ("Read_HighSpeed", 0x1c); ("Read_HighAccel", 0x1d);
     ("Read_Pos_OnRange", 0x1e); ("Read_GearNumber", 0x1f)]%string.

(** [dyn_fids] *)
Definition dyn_fids : gmap string Z :=
  list_to_map
    [("Is_MainGain", 0x10); ("Is_SpeedGain", 0x11); ("Is_IntGain", 0x12);
     ("Is_TrqCons", 0x13); ("Is_HighSpeed", 0x14); ("Is_HighAccel", 0x15);
     ("Is_Drive_ID", 0x16); ("Is_Pos_OnRange", 0x17); ("Is_GearNumber", 0x18);
     ("Is_Status", 0x19); ("Is_Config", 0x1a); ("Is_AbsPos32", 0x1b);
     ("Is_TrqCurrent", 0x1e)]%string.

(** The condition of [verify_func_id]:
    [0x10 <= func_id <= 0x1b or func_id == 0x1e]. *)
Definition legal_func_id (func_id : Z) : bool :=
  ((0x10 <=? func_id) && (func_id <=? 0x1b)) || (func_id =? 0x1e).

(** [verify_func_id(func_id)] *)
Definition verify_func_id (func_id : Z) : M unit :=
  if negb (legal_func_id func_id)
  then raise (DMMExceptionUnknownFunctionID func_id)
  else ret tt.

(** [packet += [0x80 | (sum(packet) & 0x7f)]] *)
Definition add_checksum (packet : list Z) : list Z :=
  packet ++ [Z.lor 0x80 (Z.land (sum packet) 0x7f)].

(** The tail shared by the four builders: [bytearray(packet)], the
    write, and the check of the number of bytes written. *)
Definition write_packet (packet : list Z) : M unit :=
  packet <- lift (bytearray packet) ;;
  n <- serial_write packet ;;
  if negb (n =? len packet)
  then raise (DMMExceptionTruncatedWrite n (len packet))
  else ret tt.

(** The list [packet] that [general_read2(func_id2)] builds. *)
Definition general_read2_packet (drive_id func_id2 : Z) : list Z :=
  add_checksum
    [Z.lor 0x00 drive_id;
     Z.lor (Z.lor 0x80 (0 ≪ 5)) func_id2;
     0x80].

(** [general_read2(func_id2)] *)
Definition general_read2 (drive_id func_id2 : Z) : M unit :=
  write_packet (general_read2_packet drive_id func_id2).

(** The configuration byte assembled in [set_Config]. *)
Definition cnf : Z :=
  Z.lor (Z.lor (Z.lor (Z.lor (0 ≪ 6) (1 ≪ 5)) (0x01 ≪ 3)) (0 ≪ 2)) (0x03 ≪ 0).

(** The list [packet] that [set_Config()] builds, given
    [func_id2 = host_fids['Set_Drive_Config']]. *)
Definition set_Config_packet (drive_id func_id2 : Z) : list Z :=
  add_checksum
    [Z.lor 0x00 drive_id;
     Z.lor (Z.lor 0x80 (0 ≪ 5)) func_id2;
     Z.lor 0x80 cnf].

(** [set_Config()] *)
Definition set_Config (drive_id : Z) : M unit :=
  func_id2 <- lift (getkey host_fids "Set_Drive_Config") ;;
  write_packet (set_Config_packet drive_id func_id2).

(** The list [packet] that [general_read(func_id)] builds. *)
Definition general_read_packet (drive_id func_id : Z) : list Z :=
  add_checksum
    [Z.lor 0x00 drive_id;
     Z.lor (Z.lor 0x80 (0 ≪ 5)) 0x0e;
     Z.lor 0x80 (Z.land func_id 0x7f)].

(** [general_read(func_id)] *)
Definition general_read (drive_id func_id : Z) : M unit :=
  verify_func_id func_id ;;;
  write_packet (general_read_packet drive_id func_id).

(** The list [packet] that [set_speed(rpm)] builds. *)
Definition set_speed_packet (drive_id rpm : Z) : list Z :=
  add_checksum
    [Z.lor 0x00 drive_id;
     Z.lor (Z.lor 0x80 (3 ≪ 5)) 0x0a;
     Z.lor 0x80 (Z.land (rpm ≫ (7 * 3)) 0x7f);
     Z.lor 0x80 (Z.land (rpm ≫ (7 * 2)) 0x7f);
     Z.lor 0x80 (Z.land (rpm ≫ (7 * 1)) 0x7f);
     Z.lor 0x80 (Z.land (rpm ≫ (7 * 0)) 0x7f)].

(** [set_speed(rpm)] *)
Definition set_speed (drive_id rpm : Z) : M unit :=
  write_packet (set_speed_packet drive_id rpm).

(** ** Frame reader: the [while True] loop of [read_response] *)

(** How the loop is left: by the timeout [break] (then the locals are
    not looked at again) or by the length [break], with the locals
    [arr], [expected_len] and [x] (the byte read last). *)
Inductive loop_exit : Type :=
| Timed_out
| Completed (arr : list Z) (expected_len : Z) (x : Z).

(** One pass through the loop body per element of the receive queue.
    The local [first_byte] is only used for a debug print. *)
Fixpoint read_loop (q : list (option Z)) (arr : list Z) (expected_len : Z)
  : loop_exit * list (option Z) :=
  match q with
  | [] => (Timed_out, [])
  | None :: q' => (Timed_out, q')
  | Some x :: q' =>
      let first_byte := Z.land x 0x80 =? 0 in
      let expected_len := if first_byte then 0 else expected_len in
      let arr := if first_byte then [] else arr in
      let arr := arr ++ [x] in
      let expected_len :=
        if len arr =? 2 then 4 + Z.land (x ≫ 5) 0x03 else expected_len in
      if len arr =? expected_len
      then (Completed arr expected_len x, q')
      else read_loop q' arr expected_len
  end.

(** The loop started from [arr = []], [expected_len = 0], on the port
    (whose read timeout [read_response] sets just before). *)
Definition read_frame : M loop_exit :=
  fun w => let '(e, q) := read_loop (rx w) [] 0 in (Ret e, set_rx w q).

(** ** Value decoder: the rest of [read_response] *)

(** [verify_length(arr, expected_n)] *)
Definition verify_length (arr : list Z) (expected_n : Z) : M unit :=
  a1 <- lift (getitem arr 1) ;;
  let n := Z.land (a1 ≫ 5) 0x03 in
  if negb (n =? expected_n)
  then raise (DMMExceptionUnexpectedLength n expected_n)
  else ret tt.

(** [crc_check = ((sum(arr[:-1]) ^ arr[-1]) & 0x7f) == 0] *)
Definition crc_check (arr : list Z) : result bool :=
  match getlast arr with
  | Ret l => Ret (Z.land (Z.lxor (sum (but_last arr)) l) 0x7f =? 0)
  | Raise e => Raise e
  end.

(** [read_signed_val(arr)] *)
Definition read_signed_val (arr : list Z) : result Z :=
  let arr2 := slice_2_m1 arr in
  match getitem arr2 0 with
  | Ret a =>
      let x := sign_extend (a ≪ 1) 8 ≫ 1 in
      Ret (fold_left (fun x y => (x ≪ 7) + Z.land y 0x7f) (drop 1 arr2) x)
  | Raise e => Raise e
  end.

(** The dictionary built in the [func_id == 0x19] branch from
    [x = arr[2] & 0x7f]; both assignments to a key are kept. *)
Definition status_dict (x : Z) : gmap string string :=
  let d : gmap string string := ∅ in
  let d :=
    if truthy (Z.land x (1 ≪ 0))
    then <["in position" := "0"]>
           (<["in position" := "0 (motor busy, or |Pset - Pmotor|> OnRange)"]> d)
    else <["in position" := "1"]>
           (<["in position" := "1 (On position, i.e. |Pset - Pmotor| < = OnRange)"]> d) in
  let d :=
    if truthy (Z.land x (1 ≪ 1))
    then <["motor" := "motor free"]> d
    else <["motor" := "motor servo"]> d in
  let x2 := Z.land (x ≫ 2) 0x7 in
  let d :=
    if x2 =? 0 then
      <["alarm" := ""]> (<["alarm" := "No alarm"]> d)
    else if x2 =? 1 then
      <["alarm" := "lost phase"]>
        (<["alarm" := "motor lost phase alarm, |Pset - Pmotor|>8192(steps), 180(deg)"]> d)
    else if x2 =? 2 then
      <["alarm" := "over current"]> (<["alarm" := "motor over current alarm"]> d)
    else if x2 =? 3 then
      <["alarm" := "overheat or over power"]>
        (<["alarm" := "motor overheat alarm, or motor over power"]> d)
    else if x2 =? 4 then
      <["alarm" := "corrupt command"]>
        (<["alarm" := "there is error for CRC code check, refuse to accept current command"]> d)
    else if 4 <? x2 then
      <["alarm" := "TBD"]> d
    else d in
  let d :=
    if truthy (Z.land x (1 ≪ 5))
    then <["motion" := "busy"]>
           (<["motion" := "busy (means built in S-curve, linear, circular motion is busy on current motion)"]> d)
    else <["motion" := "completed"]>
           (<["motion" := "completed (means built in S-curve, linear, circular motion completed; waiting for next motion)"]> d) in
  let d :=
    if truthy (Z.land x (1 ≪ 6))
    then <["pin2" := "1"]>
           (<["pin2" := "1 (pin2 status of JP3,used for Host PC to detect CNC zero position or others)"]> d)
    else <["pin2" := "0"]>
           (<["pin2" := "0 (pin2 status of JP3,used for Host PC to detect CNC zero position or others)"]> d) in
  d.

(** The dictionary built in the [func_id == 0x1a] branch. *)
Definition config_dict (x : Z) : gmap string string :=
  let d : gmap string string := ∅ in
  let x2 := Z.land x 0x03 in
  let d :=
    if x2 =? 0 then <["input mode" := "RS232"]> (<["input mode" := "RS232 mode"]> d)
    else if x2 =? 1 then <["input mode" := "CW/CCW"]> (<["input mode" := "CW/CCW mode"]> d)
    else if x2 =? 2 then
      <["input mode" := "pulse/dir"]>
        (<["input mode" := "Pulse/Dir or (SPI mode Optional)"]> d)
    else if x2 =? 3 then <["input mode" := "analog"]> (<["input mode" := "Analog mode"]> d)
    else d in
  let d :=
    if truthy (Z.land x (1 ≪ 2))
    then <["positioning" := "absolute"]>
           (<["positioning" := "works as absolute position system, motor will back to absolute zero or POS2(Stored in sensor) automatically after power on reset."]> d)
    else <["positioning" := "relative"]>
           (<["positioning" := "relative mode(default) like normal optical encoder"]> d) in
  let x2 := Z.land (x ≫ 3) 0x03 in
  let d :=
    if x2 =? 0 then <["servo mode" := "position"]> (<["servo mode" := "Position servo as default"]> d)
    else if x2 =? 1 then <["servo mode" := "speed"]> (<["servo mode" := "Speed servo"]> d)
    else if x2 =? 2 then <["servo mode" := "torque"]> (<["servo mode" := "Torque servo"]> d)
    else if x2 =? 3 then <["servo mode" := "TBD"]> d
    else d in
  let d :=
    if truthy (Z.land x (1 ≪ 5))
    then <["enabled" := "yes"]> (<["enabled" := "let drive servo"]> d)
    else <["enabled" := "no"]>
           (<["enabled" := "let Drive free, motor could be turned freely"]> d) in
  let d :=
    if truthy (Z.land x (1 ≪ 6))
    then <["b6" := "1 TBD"]> d
    else <["b6" := "0 TBD"]> d in
  d.

(** The [if ... elif ...] chain under [if crc_check:].  It is given the
    value the local [x] holds on entry and returns the value it holds
    on exit: a branch that assigns nothing leaves it as it was. *)
Definition dispatch (func_id : Z) (arr : list Z) (x : value) : M value :=
  if ((0x00 <=? func_id) && (func_id <=? 0x0a)) || (0x1e <? func_id) then
    print (Unallowed_address_read func_id) ;;;
    ret x
  else if func_id =? 0x10 then
    verify_length arr 0 ;;;
    a2 <- lift (getitem arr 2) ;;
    ret (VInt (Z.land a2 0x7f))
  else if func_id =? 0x11 then
    verify_length arr 0 ;;;
    a2 <- lift (getitem arr 2) ;;
    ret (VInt (Z.land a2 0x7f))
  else if func_id =? 0x12 then
    verify_length arr 0 ;;;
    a2 <- lift (getitem arr 2) ;;
    ret (VInt (Z.land a2 0x7f))
  else if func_id =? 0x13 then
    verify_length arr 0 ;;;
    a2 <- lift (getitem arr 2) ;;
    ret (VInt (Z.land a2 0x7f))
  else if func_id =? 0x14 then
    verify_length arr 0 ;;;
    a2 <- lift (getitem arr 2) ;;
    ret (VInt (Z.land a2 0x7f))
  else if func_id =? 0x15 then
    verify_length arr 0 ;;;
    a2 <- lift (getitem arr 2) ;;
    ret (VInt (Z.land a2 0x7f))
  else if func_id =? 0x16 then
    verify_length arr 0 ;;;
    a2 <- lift (getitem arr 2) ;;
    ret (VInt (Z.land a2 0x7f))
  else if func_id =? 0x17 then
    verify_length arr 0 ;;;
    a2 <- lift (getitem arr 2) ;;
    ret (VInt (Z.land a2 0x7f))
  else if func_id =? 0x18 then
    verify_length arr 3 ;;;
    a2 <- lift (getitem arr 2) ;;
    a3 <- lift (getitem arr 3) ;;
    a4 <- lift (getitem arr 4) ;;
    a5 <- lift (getitem arr 5) ;;
    ret (VList [Z.lor (Z.land a2 0x7f ≪ 7) (Z.land a3 0x7f);
                Z.lor (Z.land a4 0x7f ≪ 7) (Z.land a5 0x7f)])
  else if func_id =? 0x19 then
    verify_length arr 0 ;;;
    a2 <- lift (getitem arr 2) ;;
    ret (VDict (status_dict (Z.land a2 0x7f)))
  else if func_id =? 0x1a then
    verify_length arr 0 ;;;
    a2 <- lift (getitem arr 2) ;;
    print (Hex (Z.land a2 0x7f)) ;;;
    ret (VDict (config_dict (Z.land a2 0x7f)))
  else if func_id =? 0x1b then
    v <- lift (read_signed_val arr) ;;
    ret (VInt v)
  else if (func_id =? 0x1c) || (func_id =? 0x1d) then
    print (Unknown_address_read func_id) ;;;
    ret x
  else if func_id =? 0x1e then
    v <- lift (read_signed_val arr) ;;
    ret (VInt v)
  else ret x.

(** What [read_response] returns: [False], or the pair [func_id, x]. *)
Inductive response : Type :=
| RFalse
| RPair (func_id : Z) (x : value).

(** The statements of [read_response] after the loop.  When the guard
    [if arr and expected_len == len(arr)] fails, [func_id] has no value
    at the [return]. *)
Definition decode_response (e : loop_exit) : M response :=
  match e with
  | Timed_out => ret RFalse
  | Completed arr expected_len x =>
      if nonempty arr && (expected_len =? len arr) then
        a0 <- lift (getitem arr 0) ;;
        let drive_id := Z.land a0 0x7f in
        a1 <- lift (getitem arr 1) ;;
        let func_id := Z.land a1 0x1f in
        crc <- lift (crc_check arr) ;;
        x <- (if crc : bool then dispatch func_id arr (VInt x) else ret (VInt x)) ;;
        ret (RPair func_id x)
      else raise UnboundLocalError
  end.

(** [read_response()] *)
Definition read_response : M response :=
  e <- read_frame ;;
  decode_response e.

(** ** Command session *)

(** [range(n)] *)
Definition range (n : Z) : list Z := Z.of_nat <$> seq 0 (Z.to_nat n).

(** The [for i in range(max_attempts)] loop of [check_response].  The
    locals [i] and [v] have no value before the first pass; unpacking
    [False] into [func_id, v] is a [TypeError]. *)
Fixpoint check_loop (expected_func_id : Z) (r : list Z) (iv : option (Z * value))
  : M (option (Z * value)) :=
  match r with
  | [] => ret iv
  | i :: r' =>
      resp <- read_response ;;
      match resp with
      | RFalse => raise TypeError
      | RPair func_id v =>
          if func_id =? expected_func_id
          then ret (Some (i, v))
          else check_loop expected_func_id r' (Some (i, v))
      end
  end.

(** [check_response(expected_func_id, max_attempts)] *)
Definition check_response (expected_func_id max_attempts : Z) : M value :=
  iv <- check_loop expected_func_id (range max_attempts) None ;;
  match iv with
  | None => raise UnboundLocalError
  | Some (i, v) =>
      if i =? max_attempts
      then raise DMMExceptionUnexpectedFunc
      else ret v
  end.

(** The default [max_attempts=3]. *)
Definition max_attempts_default : Z := 3.

(** [read_MainGain()] *)
Definition read_MainGain (drive_id : Z) : M value :=
  h <- lift (getkey host_fids "Read_MainGain") ;;
  general_read2 drive_id h ;;;
  d <- lift (getkey dyn_fids "Is_MainGain") ;;
  check_response d max_attempts_default.

(** [read_AbsPos32()] *)
Definition read_AbsPos32 (drive_id : Z) : M value :=
  d <- lift (getkey dyn_fids "Is_AbsPos32") ;;
  general_read drive_id d ;;;
  d <- lift (getkey dyn_fids "Is_AbsPos32") ;;
  check_response d max_attempts_default.

(** [read_SpeedGain()] *)
Definition read_SpeedGain (drive_id : Z) : M value :=
  h <- lift (getkey host_fids "Read_SpeedGain") ;;
  general_read2 drive_id h ;;;
  d <- lift (getkey dyn_fids "Is_SpeedGain") ;;
  check_response d max_attempts_default.

(** [read_IntGain()] *)
Definition read_IntGain (drive_id : Z) : M value :=
  h <- lift (getkey host_fids "Read_IntGain") ;;
  general_read2 drive_id h ;;;
  d <- lift (getkey dyn_fids "Is_IntGain") ;;
  check_response d max_attempts_default.

(** [read_TrqCons()] *)
Definition read_TrqCons (drive_id : Z) : M value :=
  h <- lift (getkey host_fids "Read_TrqCons") ;;
  general_read2 drive_id h ;;;
  d <- lift (getkey dyn_fids "Is_TrqCons") ;;
  check_response d max_attempts_default.

(** [read_HighSpeed()] *)
Definition read_HighSpeed (drive_id : Z) : M value :=
  h <- lift (getkey host_fids "Read_HighSpeed") ;;
  general_read2 drive_id h ;;;
  d <- lift (getkey dyn_fids "Is_HighSpeed") ;;
  check_response d max_attempts_default.

(** [read_HighAccel()] *)
Definition read_HighAccel (drive_id : Z) : M value :=
  h <- lift (getkey host_fids "Read_HighAccel") ;;
  general_read2 drive_id h ;;;
  d <- lift (getkey dyn_fids "Is_HighAccel") ;;
  check_response d max_attempts_default.

(** [read_Pos_OnRange()] *)
Definition read_Pos_OnRange (drive_id : Z) : M value :=
  h <- lift (getkey host_fids "Read_Pos_OnRange") ;;
  general_read2 drive_id h ;;;
  d <- lift (getkey dyn_fids "Is_Pos_OnRange") ;;
  check_response d max_attempts_default.

(** [read_GearNumber()] *)
Definition read_GearNumber (drive_id : Z) : M value :=
  h <- lift (getkey host_fids "Read_GearNumber") ;;
  general_read2 drive_id h ;;;
  d <- lift (getkey dyn_fids "Is_GearNumber") ;;
  check_response d max_attempts_default.

(** [read_Status()] *)
Definition read_Status (drive_id : Z) : M value :=
  h <- lift (getkey host_fids "Read_Drive_Status") ;;
  general_read2 drive_id h ;;;
  d <- lift (getkey dyn_fids "Is_Status") ;;
  check_response d max_attempts_default.

(** [read_Config()] *)
Definition read_Config (drive_id : Z) : M value :=
  h <- lift (getkey host_fids "Read_Drive_Config") ;;
  general_read2 drive_id h ;;;
  d <- lift (getkey dyn_fids "Is_Config") ;;
  check_response d max_attempts_default.

(** [read_TrqCurrent()] *)
Definition read_TrqCurrent (drive_id : Z) : M value :=
  d <- lift (getkey dyn_fids "Is_TrqCurrent") ;;
  general_read drive_id d ;;;
  d <- lift (getkey dyn_fids "Is_TrqCurrent") ;;
  check_response d max_attempts_default.


(** * Vocabulary of the properties *)

(** The checksum relation on a frame: the receiver's test passes, and
    the last byte is [0x80 | (sum(preceding bytes) & 0x7f)]. *)
Definition checksum_relation (frame : list Z) : Prop :=
  crc_check frame = Ret true ∧
  getlast frame = Ret (Z.lor 0x80 (Z.land (sum (but_last frame)) 0x7f)).

(** A run of the request [m] ends normally and puts exactly [frame] on
    the wire. *)
Definition produces (m : M unit) (frame : list Z) : Prop :=
  ∃ w w', m w = (Ret tt, w') ∧ tx w' = tx w ++ frame.

(** The frames of the codec: what the four request builders put on the
    wire for the drive [drive_id].  A function identifier handed to
    [general_read2] is one of the 5-bit codes of [host_fids]. *)
Inductive codec_frame (drive_id : Z) (frame : list Z) : Prop :=
| frame_general_read2 (func_id2 : Z) :
    0 ≤ func_id2 ≤ 31 →
    produces (general_read2 drive_id func_id2) frame →
    codec_frame drive_id frame
| frame_general_read (func_id : Z) :
    produces (general_read drive_id func_id) frame →
    codec_frame drive_id frame
| frame_set_Config :
    produces (set_Config drive_id) frame →
    codec_frame drive_id frame
| frame_set_speed (rpm : Z) :
    produces (set_speed drive_id rpm) frame →
    codec_frame drive_id frame.

(** A frame as it travels on the wire: a start byte, then continuation
    bytes only, [4 + length code] bytes in all. *)
Definition wire_frame (frame : list Z) : Prop :=
  ∃ b0 b1 rest,
    frame = b0 :: b1 :: rest ∧
    Z.land b0 0x80 = 0 ∧
    Forall (λ b, Z.land b 0x80 ≠ 0) (b1 :: rest) ∧
    len frame = 4 + Z.land (b1 ≫ 5) 0x03.

(** What holds of the locals [arr] and [expected_len] at the top of
    every pass through the loop. *)
Definition loop_inv (arr : list Z) (expected_len : Z) : Prop :=
  ((length arr ≤ 1)%nat ∧ expected_len = 0) ∨
  (∃ a0 a1 rest, arr = a0 :: a1 :: rest ∧
     expected_len = 4 + Z.land (a1 ≫ 5) 0x03 ∧ len arr < expected_len).

(** What holds of the locals when the loop is left by the length
    [break]. *)
Definition delivered (arr : list Z) (expected_len x : Z) : Prop :=
  len arr = expected_len ∧
  4 ≤ expected_len ≤ 7 ∧
  last arr = Some x ∧
  Z.land x 0x80 ≠ 0 ∧
  ∃ a0 a1 rest, arr = a0 :: a1 :: rest ∧
                expected_len = 4 + Z.land (a1 ≫ 5) 0x03.

(** The length code that the decoder checks for a function identifier:
    the second argument of the [verify_length] call of its branch, if
    the branch has one. *)
Definition expected_length_code (func_id : Z) : option Z :=
  if (0x10 <=? func_id) && (func_id <=? 0x17) then Some 0
  else if func_id =? 0x18 then Some 3
  else if func_id =? 0x19 then Some 0
  else if func_id =? 0x1a then Some 0
  else None.

(** A run of successive [read_response] calls from [w] to [w'], each
    returning a pair; the pairs in the order they were returned. *)
Inductive responses : world → list (Z * value) → world → Prop :=
| responses_nil (w : world) : responses w [] w
| responses_cons (w w1 w2 : world) (func_id : Z) (v : value) l :
    read_response w = (Ret (RPair func_id v), w1) →
    responses w1 l w2 →
    responses w ((func_id, v) :: l) w2.

(** A whole number as four seven-bit groups, most significant first,
    each with the continuation bit: the payload that [set_speed] builds
    from [rpm]. *)
Definition groups28 (n : Z) : list Z :=
  [Z.lor 0x80 (Z.land (n ≫ (7 * 3)) 0x7f);
   Z.lor 0x80 (Z.land (n ≫ (7 * 2)) 0x7f);
   Z.lor 0x80 (Z.land (n ≫ (7 * 1)) 0x7f);
   Z.lor 0x80 (Z.land (n ≫ (7 * 0)) 0x7f)].

(** The world after the request [packet] went out and the answer was
    read up to the queue [q]. *)
Definition exchanged (w : world) (packet : list Z) (q : list (option Z))
  : world :=
  World q (tx w ++ packet) (wlimit w) (stdout w).

(** A request method of the drive [drive_id], with an argument it
    accepts, and the packet it builds. *)
Inductive builds (drive_id : Z) : M unit → list Z → Prop :=
| builds_general_read2 (func_id2 : Z) :
    0 ≤ func_id2 ≤ 31 →
    builds drive_id (general_read2 drive_id func_id2)
      (general_read2_packet drive_id func_id2)
| builds_general_read (func_id : Z) :
    legal_func_id func_id = true →
    builds drive_id (general_read drive_id func_id)
      (general_read_packet drive_id func_id)
| builds_set_Config :
    builds drive_id (set_Config drive_id) (set_Config_packet drive_id 0x07)
| builds_set_speed (rpm : Z) :
    builds drive_id (set_speed drive_id rpm) (set_speed_packet drive_id rpm).

(** The read methods that wait for a one-byte number, each with the
    host-side code it requests with and the drive-side code it waits
    for. *)
Inductive scalar_read : (Z → M value) → Z → Z → Prop :=
| scalar_MainGain : scalar_read read_MainGain 0x18 0x10
| scalar_SpeedGain : scalar_read read_SpeedGain 0x19 0x11
| scalar_IntGain : scalar_read read_IntGain 0x1a 0x12
| scalar_TrqCons : scalar_read read_TrqCons 0x1b 0x13
| scalar_HighSpeed : scalar_read read_HighSpeed 0x1c 0x14
| scalar_HighAccel : scalar_read read_HighAccel 0x1d 0x15
| scalar_Pos_OnRange : scalar_read read_Pos_OnRange 0x1e 0x17.

(** The read methods that wait for a signed number, each with the
    drive-side code it both requests and waits for. *)
Inductive signed_read : (Z → M value) → Z → Prop :=
| signed_AbsPos32 : signed_read read_AbsPos32 0x1b
| signed_TrqCurrent : signed_read read_TrqCurrent 0x1e.

(** The twelve read methods, each with the request packet it writes
    for a drive address and the drive-side code it waits for. *)
Inductive read_method : (Z → M value) → (Z → list Z) → Z → Prop :=
| method_MainGain :
    read_method read_MainGain (λ d, general_read2_packet d 0x18) 0x10
| method_SpeedGain :
    read_method read_SpeedGain (λ d, general_read2_packet d 0x19) 0x11
| method_IntGain :
    read_method read_IntGain (λ d, general_read2_packet d 0x1a) 0x12
| method_TrqCons :
    read_method read_TrqCons (λ d, general_read2_packet d 0x1b) 0x13
| method_HighSpeed :
    read_method read_HighSpeed (λ d, general_read2_packet d 0x1c) 0x14
| method_HighAccel :
    read_method read_HighAccel (λ d, general_read2_packet d 0x1d) 0x15
| method_Pos_OnRange :
    read_method read_Pos_OnRange (λ d, general_read2_packet d 0x1e) 0x17
| method_GearNumber :
    read_method read_GearNumber (λ d, general_read2_packet d 0x1f) 0x18
| method_Status :
    read_method read_Status (λ d, general_read2_packet d 0x09) 0x19
| method_Config :
    read_method read_Config (λ d, general_read2_packet d 0x08) 0x1a
| method_AbsPos32 :
    read_method read_AbsPos32 (λ d, general_read_packet d 0x1b) 0x1b
| method_TrqCurrent :
    read_method read_TrqCurrent (λ d, general_read_packet d 0x1e) 0x1e.

(** * Properties *)

(** ** Bit-level facts about the integer operations used *)

Section Bits.

Lemma land_pow2 (x k : Z) :
  0 ≤ k → Z.land x (2 ^ k) = if Z.testbit x k then 2 ^ k else 0.
Proof.
  intros Hk. apply Z.bits_inj'. intros n Hn.
  rewrite Z.land_spec, Z.pow2_bits_eqb by done.
  destruct (Z.eqb_spec k n) as [->|Hne].
  - destruct (Z.testbit x n) eqn:E; rewrite ?E.
    + by rewrite Z.pow2_bits_eqb, Z.eqb_refl.
    + by rewrite Z.bits_0.
  - rewrite andb_false_r. destruct (Z.testbit x k).
    + rewrite Z.pow2_bits_eqb by done. symmetry. by apply Z.eqb_neq.
    + by rewrite Z.bits_0.
Qed.

(** [x & (1 << k)] as a condition tests bit [k] of [x]. *)
Lemma truthy_bit (x k : Z) :
  0 ≤ k → truthy (Z.land x (1 ≪ k)) = Z.testbit x k.
Proof.
  intros Hk. unfold truthy. rewrite Z.shiftl_1_l, land_pow2 by done.
  destruct (Z.testbit x k); [|done].
  apply negb_true_iff, Z.eqb_neq. pose proof (Z.pow_pos_nonneg 2 k). lia.
Qed.

(** The checksum byte cancels the low seven bits of the sum. *)
Lemma checksum_cancels (s : Z) :
  Z.land (Z.lxor s (Z.lor 0x80 (Z.land s 0x7f))) 0x7f = 0.
Proof.
  apply Z.bits_inj'. intros n Hn.
  rewrite Z.bits_0, Z.land_spec, Z.lxor_spec, Z.lor_spec, Z.land_spec.
  change 0x7f with (Z.ones 7). rewrite Z.testbit_ones_nonneg by lia.
  destruct (Z.ltb_spec n 7) as [Hlt|Hge]; [|by rewrite andb_false_r].
  change 0x80 with (2 ^ 7). rewrite Z.pow2_bits_eqb by lia.
  replace (7 =? n) with false by (symmetry; apply Z.eqb_neq; lia).
  cbn. rewrite !andb_true_r. apply xorb_nilpotent.
Qed.

(** A byte or-ed with [0x80] is a continuation byte. *)
Lemma continuation_lor (y : Z) : Z.land (Z.lor 0x80 y) 0x80 ≠ 0.
Proof.
  intros H. apply (f_equal (λ z, Z.testbit z 7)) in H.
  rewrite Z.land_spec, Z.lor_spec in H. discriminate.
Qed.

(** A number below [0x80] is a start byte. *)
Lemma start_small (d : Z) : 0 ≤ d < 0x80 → Z.land d 0x80 = 0.
Proof.
  intros Hd. change 0x80 with (2 ^ 7). rewrite land_pow2 by lia.
  rewrite Z.testbit_odd, Z.shiftr_div_pow2, Z.div_small by lia. done.
Qed.

(** [(x << 7) + (y & 0x7f)] is [(x << 7) | (y & 0x7f)]. *)
Lemma shift7_add_lor (x y : Z) :
  (x ≪ 7) + Z.land y 0x7f = Z.lor (x ≪ 7) (Z.land y 0x7f).
Proof.
  assert (Z.land (x ≪ 7) (Z.land y 0x7f) = 0) as Hdisj.
  { apply Z.bits_inj'. intros n Hn.
    rewrite Z.bits_0, !Z.land_spec. change 0x7f with (Z.ones 7).
    rewrite Z.testbit_ones_nonneg by lia.
    destruct (Z.ltb_spec n 7) as [Hlt|Hge].
    - by rewrite Z.shiftl_spec_low.
    - by rewrite !andb_false_r. }
  rewrite Z.add_nocarry_lxor by done. by apply Z.lxor_lor.
Qed.

Lemma land_0x80 (x : Z) : Z.land x 0x80 = x `mod` 256 - x `mod` 128.
Proof.
  assert (Z.land x 0xff = Z.land x 0x7f + Z.land x 0x80) as H.
  { change 0xff with (Z.lor 0x7f 0x80). rewrite Z.land_lor_distr_r.
    assert (Z.land (Z.land x 0x7f) (Z.land x 0x80) = 0) as Hdisj.
    { rewrite Z.land_assoc, (Z.land_comm (Z.land x 0x7f)), Z.land_assoc,
        Z.land_diag, <- Z.land_assoc. change (Z.land 0x7f 0x80) with 0.
      apply Z.land_0_r. }
    rewrite Z.add_nocarry_lxor by done. symmetry. by apply Z.lxor_lor. }
  change 0xff with (Z.ones 8) in H. change 0x7f with (Z.ones 7) in H.
  rewrite !Z.land_ones in H by lia. change (2 ^ 8) with 256 in H.
  change (2 ^ 7) with 128 in H. lia.
Qed.

Lemma sign_extend_8 (value : Z) :
  sign_extend value 8 = Z.land value 0x7f - Z.land value 0x80.
Proof. reflexivity. Qed.

(** The first payload byte of a signed value: the seven low bits of
    [b] read as a two's-complement number. *)
Lemma signed7 (b v : Z) :
  -64 ≤ v ≤ 63 → Z.land b 0x7f = v `mod` 128 →
  sign_extend (b ≪ 1) 8 ≫ 1 = v.
Proof.
  intros Hv Hb. rewrite sign_extend_8, land_0x80.
  change 0x7f with (Z.ones 7) in *. rewrite Z.land_ones in * by lia.
  rewrite Z.shiftr_div_pow2, Z.shiftl_mul_pow2 by lia.
  change (2 ^ 7) with 128 in *. change (2 ^ 1) with 2.
  Z.div_mod_to_equations. lia.
Qed.

End Bits.

(** ** Frame codec *)

Section Codec.

Lemma sum_snoc (l : list Z) (c : Z) : sum (l ++ [c]) = sum l + c.
Proof. unfold sum. by rewrite fold_left_app. Qed.

Lemma add_checksum_relation (packet : list Z) :
  checksum_relation (add_checksum packet).
Proof.
  unfold checksum_relation, crc_check, getlast, but_last, add_checksum.
  rewrite last_snoc, removelast_last, checksum_cancels. done.
Qed.

(** A write that ends normally has sent the whole packet. *)
Lemma write_packet_tx (packet : list Z) (w w' : world) :
  write_packet packet w = (Ret tt, w') → tx w' = tx w ++ packet.
Proof.
  unfold write_packet, bind, lift, bytearray, serial_write, raise, ret, len.
  destruct (forallb _ packet); [|discriminate].
  destruct (Z.eqb_spec (Z.of_nat (length (take (wlimit w) packet)))
              (Z.of_nat (length packet))) as [Heq|Hne]; cbn; [|discriminate].
  intros [= <-]. cbn. f_equal. apply take_ge.
  rewrite length_take in Heq. lia.
Qed.

(** On a port that takes the whole packet, a packet of bytes is
    written without an exception. *)
Lemma write_packet_ok (packet : list Z) (w : world) :
  bytearray packet = Ret packet → (length packet ≤ wlimit w)%nat →
  write_packet packet w
  = (Ret tt, World (rx w) (tx w ++ packet) (wlimit w) (stdout w)).
Proof.
  intros Hb Hl. unfold write_packet, bind, lift, serial_write.
  rewrite Hb, take_ge by done. by rewrite Z.eqb_refl.
Qed.

Lemma produces_general_read2 drive_id func_id2 frame :
  produces (general_read2 drive_id func_id2) frame →
  frame = general_read2_packet drive_id func_id2.
Proof.
  intros (w & w' & Hrun & Htx). apply write_packet_tx in Hrun.
  rewrite Hrun in Htx. by apply (inj (app (tx w))) in Htx.
Qed.

Lemma produces_general_read drive_id func_id frame :
  produces (general_read drive_id func_id) frame →
  legal_func_id func_id = true ∧ frame = general_read_packet drive_id func_id.
Proof.
  intros (w & w' & Hrun & Htx). revert Hrun.
  unfold general_read, verify_func_id, bind at 1.
  destruct (legal_func_id func_id); cbn; [|discriminate].
  intros Hrun. apply write_packet_tx in Hrun.
  rewrite Hrun in Htx. by apply (inj (app (tx w))) in Htx.
Qed.

Lemma produces_set_Config drive_id frame :
  produces (set_Config drive_id) frame →
  frame = set_Config_packet drive_id 0x07.
Proof.
  intros (w & w' & Hrun & Htx). revert Hrun.
  unfold set_Config, bind at 1. cbn. intros Hrun.
  apply write_packet_tx in Hrun.
  rewrite Hrun in Htx. by apply (inj (app (tx w))) in Htx.
Qed.

Lemma produces_set_speed drive_id rpm frame :
  produces (set_speed drive_id rpm) frame →
  frame = set_speed_packet drive_id rpm.
Proof.
  intros (w & w' & Hrun & Htx). apply write_packet_tx in Hrun.
  rewrite Hrun in Htx. by apply (inj (app (tx w))) in Htx.
Qed.

End Codec.

(** C2. Every frame that one of the request builders [general_read2],
    [general_read], [set_Config] and [set_speed] puts on the wire for a
    drive address in [0, 31] satisfies the checksum relation
    [(sum(frame[:-1]) ^ frame[-1]) & 0x7f == 0], and its last byte is
    [0x80 | (sum(preceding bytes) & 0x7f)]. *)
Theorem codec_frame_checksum (drive_id : Z) (frame : list Z) :
  0 ≤ drive_id ≤ 31 →
  codec_frame drive_id frame →
  checksum_relation frame.
Proof.
  intros _ [f2 _ H|f H| H|rpm H].
  - apply produces_general_read2 in H as ->. apply add_checksum_relation.
  - apply produces_general_read in H as [_ ->]. apply add_checksum_relation.
  - apply produces_set_Config in H as ->. apply add_checksum_relation.
  - apply produces_set_speed in H as ->. apply add_checksum_relation.
Qed.

Lemma codec_frame_checksum_witness :
  checksum_relation [0x00; 0x98; 0x80; 0x98] ∧
  checksum_relation [0x1f; 0x8e; 0x9b; 0xc8] ∧
  checksum_relation [0x01; 0x87; 0xab; 0xb3] ∧
  checksum_relation [0x00; 0xea; 0x80; 0x80; 0x80; 0xb2; 0x9c].
Proof.
  pose (w := World [] [] 7 []).
  split; [|split; [|split]].
  - apply (codec_frame_checksum 0); [lia|].
    apply (frame_general_read2 _ _ 0x18); [lia|].
    exists w, (general_read2 0 0x18 w).2. split; reflexivity.
  - apply (codec_frame_checksum 31); [lia|].
    apply (frame_general_read _ _ 0x1b).
    exists w, (general_read 31 0x1b w).2. split; reflexivity.
  - apply (codec_frame_checksum 1); [lia|].
    apply frame_set_Config.
    exists w, (set_Config 1 w).2. split; reflexivity.
  - apply (codec_frame_checksum 0); [lia|].
    apply (frame_set_speed _ _ 50).
    exists w, (set_speed 0 50 w).2. split; reflexivity.
Defined.

(** ** Frame reader *)

Section Reader.

Lemma length_code_range (b : Z) : 0 ≤ Z.land (b ≫ 5) 0x03 ≤ 3.
Proof.
  change (Z.land (b ≫ 5) 0x03) with (Z.land (b ≫ 5) (Z.ones 2)).
  rewrite Z.land_ones by lia.
  change (2 ^ 2) with 4. pose proof (Z.mod_pos_bound (b ≫ 5) 4). lia.
Qed.

Lemma len_snoc (arr : list Z) (x : Z) : len (arr ++ [x]) = len arr + 1.
Proof. unfold len. rewrite length_app. cbn. lia. Qed.

(** The two ways through the loop body. *)
Lemma read_loop_start (x : Z) q arr expected_len :
  Z.land x 0x80 = 0 →
  read_loop (Some x :: q) arr expected_len = read_loop q [x] 0.
Proof. intros H. cbn [read_loop]. rewrite H. reflexivity. Qed.

Lemma read_loop_cont (x : Z) q arr expected_len :
  Z.land x 0x80 ≠ 0 →
  read_loop (Some x :: q) arr expected_len
  = if len (arr ++ [x]) =? 2
    then read_loop q (arr ++ [x]) (4 + Z.land (x ≫ 5) 0x03)
    else if len (arr ++ [x]) =? expected_len
         then (Completed (arr ++ [x]) expected_len x, q)
         else read_loop q (arr ++ [x]) expected_len.
Proof.
  intros H. cbn [read_loop]. apply Z.eqb_neq in H. rewrite H.
  destruct (Z.eqb_spec (len (arr ++ [x])) 2) as [Heq|Hne]; [|done].
  rewrite Heq. pose proof (length_code_range x).
  replace (2 =? 4 + Z.land (x ≫ 5) 3) with false
    by (symmetry; apply Z.eqb_neq; lia).
  done.
Qed.

(** Once two bytes are in, continuation bytes are appended until the
    expected length is reached. *)
Lemma read_loop_continue (rest : list Z) :
  ∀ (arr : list Z) (expected_len : Z) (q : list (option Z)),
    rest ≠ [] →
    Forall (λ b, Z.land b 0x80 ≠ 0) rest →
    2 ≤ len arr →
    len arr + len rest = expected_len →
    ∃ x, last rest = Some x ∧
         read_loop ((Some <$> rest) ++ q) arr expected_len
         = (Completed (arr ++ rest) expected_len x, q).
Proof.
  induction rest as [|b rest IH]; intros arr el q Hne Hall Harr Hlen; [done|].
  apply Forall_cons in Hall as [Hb Hall].
  cbn [fmap list_fmap app]. rewrite read_loop_cont, len_snoc by done.
  replace (len arr + 1 =? 2) with false by (symmetry; apply Z.eqb_neq; lia).
  assert (len (b :: rest) = 1 + len rest) as Hcons
    by (unfold len; cbn [length]; lia).
  rewrite Hcons in Hlen.
  destruct rest as [|b' rest].
  - exists b. split; [done|]. change (len []) with 0 in Hlen.
    replace (len arr + 1 =? el) with true by (symmetry; apply Z.eqb_eq; lia).
    done.
  - assert (0 < len (b' :: rest)) as Hpos by (unfold len; cbn [length]; lia).
    replace (len arr + 1 =? el) with false by (symmetry; apply Z.eqb_neq; lia).
    destruct (IH (arr ++ [b]) el q) as (x & Hx & Hrun); [done|done|..].
    + rewrite len_snoc. lia.
    + rewrite len_snoc. lia.
    + exists x. split; [done|]. rewrite Hrun. by rewrite <- app_assoc.
Qed.

(** A frame on the wire is read back as it is, whatever was
    accumulated before its start byte. *)
Lemma read_loop_wire_frame (frame : list Z) (arr : list Z)
    (expected_len : Z) (q : list (option Z)) :
  wire_frame frame →
  ∃ x, last frame = Some x ∧
       read_loop ((Some <$> frame) ++ q) arr expected_len
       = (Completed frame (len frame) x, q).
Proof.
  intros (b0 & b1 & rest & -> & Hb0 & Hall & Hlen).
  apply Forall_cons in Hall as [Hb1 Hall].
  pose proof (length_code_range b1) as Hcode.
  cbn [fmap list_fmap app].
  rewrite read_loop_start, read_loop_cont by done. cbn [app].
  change (len [b0; b1] =? 2) with true. cbv iota.
  assert (len (b0 :: b1 :: rest) = 2 + len rest) as Hcons
    by (unfold len; cbn [length]; lia).
  assert (rest ≠ []) as Hne.
  { intros ->. change (len []) with 0 in Hcons. lia. }
  destruct (read_loop_continue rest [b0; b1] (4 + Z.land (b1 ≫ 5) 3) q)
    as (x & Hx & Hrun); [done|done|done|..].
  { change (len [b0; b1]) with 2. lia. }
  exists x. split.
  - destruct rest; [done|]. done.
  - rewrite Hrun, Hlen. done.
Qed.

(** The loop invariant gives the shape of every frame the loop
    delivers. *)
Lemma read_loop_delivered (q : list (option Z)) :
  ∀ (arr : list Z) (expected_len : Z) arr' el' x q',
    loop_inv arr expected_len →
    read_loop q arr expected_len = (Completed arr' el' x, q') →
    delivered arr' el' x.
Proof.
  induction q as [|[b|] q IH]; intros arr el arr' el' x q' Hinv; [done| |done].
  destruct (Z.eq_dec (Z.land b 0x80) 0) as [Hfirst|Hcont].
  - rewrite read_loop_start by done.
    apply IH. left. split; [cbn; lia|done].
  - rewrite read_loop_cont by done.
    destruct Hinv as [[Hshort ->]|(a0 & a1 & rest & -> & -> & Hlt)].
    + destruct arr as [|a [|? ?]]; [| |cbn in Hshort; lia].
      * cbn [app]. change (len [b] =? 2) with false.
        change (len [b] =? 0) with false. cbv iota.
        apply IH. left. split; [cbn; lia|done].
      * cbn [app]. change (len [a; b] =? 2) with true. cbv iota.
        pose proof (length_code_range b) as Hcode.
        apply IH. right. exists a, b, []. repeat split.
        change (len [a; b]) with 2. lia.
    + pose proof (length_code_range a1) as Hcode.
      assert (2 ≤ len (a0 :: a1 :: rest)) as Hlen2
        by (unfold len; cbn [length]; lia).
      rewrite len_snoc.
      replace (len (a0 :: a1 :: rest) + 1 =? 2) with false
        by (symmetry; apply Z.eqb_neq; lia).
      destruct (Z.eqb_spec (len (a0 :: a1 :: rest) + 1)
                  (4 + Z.land (a1 ≫ 5) 3)) as [Heq|Hne].
      * intros [= <- <- <- <-]. unfold delivered.
        change (a0 :: a1 :: rest ++ [b]) with ((a0 :: a1 :: rest) ++ [b]).
        rewrite len_snoc, last_snoc. repeat split; try done; try lia.
        by exists a0, a1, (rest ++ [b]).
      * apply IH. right. exists a0, a1, (rest ++ [b]). repeat split.
        change (a0 :: a1 :: rest ++ [b]) with ((a0 :: a1 :: rest) ++ [b]).
        rewrite len_snoc. lia.
Qed.

(** The same, for [read_frame] on the port. *)
Lemma read_frame_delivered (w w' : world) arr expected_len x :
  read_frame w = (Ret (Completed arr expected_len x), w') →
  delivered arr expected_len x.
Proof.
  unfold read_frame.
  destruct (read_loop (rx w) [] 0) as [e q'] eqn:Hloop.
  intros [= -> _]. eapply read_loop_delivered; [|exact Hloop].
  left. split; [cbn; lia|done].
Qed.

(** Each builder writes a wire frame. *)
Local Ltac continuation_bytes :=
  repeat (apply Forall_cons; split); [..|apply Forall_nil];
  first [ apply continuation_lor
        | rewrite <- Z.lor_assoc; apply continuation_lor
        | by cbv ].

Lemma general_read2_wire drive_id func_id2 :
  0 ≤ drive_id ≤ 31 → 0 ≤ func_id2 ≤ 31 →
  wire_frame (general_read2_packet drive_id func_id2).
Proof.
  intros Hd Hf. eexists _, _, _. split; [reflexivity|].
  rewrite Z.lor_0_l. split; [apply start_small; lia|]. split.
  - continuation_bytes.
  - change (len _) with 4. change (Z.lor 128 (0 ≪ 5)) with 128.
    rewrite Z.shiftr_lor. change (128 ≫ 5) with 4.
    rewrite (Z.shiftr_div_pow2 func_id2), Z.div_small by lia. done.
Qed.

Lemma general_read_wire drive_id func_id :
  0 ≤ drive_id ≤ 31 →
  wire_frame (general_read_packet drive_id func_id).
Proof.
  intros Hd. eexists _, _, _. split; [reflexivity|].
  rewrite Z.lor_0_l. split; [apply start_small; lia|]. split.
  - continuation_bytes.
  - done.
Qed.

Lemma set_Config_wire drive_id :
  0 ≤ drive_id ≤ 31 →
  wire_frame (set_Config_packet drive_id 0x07).
Proof.
  intros Hd. eexists _, _, _. split; [reflexivity|].
  rewrite Z.lor_0_l. split; [apply start_small; lia|]. split.
  - continuation_bytes.
  - done.
Qed.

Lemma set_speed_wire drive_id rpm :
  0 ≤ drive_id ≤ 31 →
  wire_frame (set_speed_packet drive_id rpm).
Proof.
  intros Hd. eexists _, _, _. split; [reflexivity|].
  rewrite Z.lor_0_l. split; [apply start_small; lia|]. split.
  - continuation_bytes.
  - done.
Qed.

Lemma codec_frame_wire drive_id frame :
  0 ≤ drive_id ≤ 31 → codec_frame drive_id frame → wire_frame frame.
Proof.
  intros Hd [f2 Hf2 H|f H| H|rpm H].
  - apply produces_general_read2 in H as ->. by apply general_read2_wire.
  - apply produces_general_read in H as [_ ->]. by apply general_read_wire.
  - apply produces_set_Config in H as ->. by apply set_Config_wire.
  - apply produces_set_speed in H as ->. by apply set_speed_wire.
Qed.

End Reader.

(** C3. Round trip: when the receive queue starts with the bytes of a
    frame that a request builder wrote for a drive address in [0, 31]
    (function identifier in range, payload of seven-bit values), the
    accumulation loop of [read_response] ends by the length [break]
    with [arr] equal to that frame, byte for byte, and leaves the rest
    of the queue unread. *)
Theorem encode_then_read (drive_id : Z) (frame : list Z)
    (w : world) (q : list (option Z)) :
  0 ≤ drive_id ≤ 31 →
  codec_frame drive_id frame →
  rx w = (Some <$> frame) ++ q →
  ∃ x, last frame = Some x ∧
       read_frame w = (Ret (Completed frame (len frame) x), set_rx w q).
Proof.
  intros Hd Hframe Hrx.
  destruct (read_loop_wire_frame frame [] 0 q) as (x & Hx & Hrun).
  { by eapply codec_frame_wire. }
  exists x. split; [done|]. unfold read_frame. by rewrite Hrx, Hrun.
Qed.

Lemma encode_then_read_witness :
  ∃ x, last [0x00; 0x98; 0x80; 0x98] = Some x ∧
       read_frame (World (Some <$> [0x00; 0x98; 0x80; 0x98; 0x00; 0x90]) [] 7 [])
       = (Ret (Completed [0x00; 0x98; 0x80; 0x98] 4 x),
          World (Some <$> [0x00; 0x90]) [] 7 []).
Proof.
  apply (encode_then_read 0 [0x00; 0x98; 0x80; 0x98]
           (World (Some <$> [0x00; 0x98; 0x80; 0x98; 0x00; 0x90]) [] 7 [])
           (Some <$> [0x00; 0x90])); [lia| |reflexivity].
  apply (frame_general_read2 _ _ 0x18); [lia|].
  exists (World [] [] 7 []), (general_read2 0 0x18 (World [] [] 7 [])).2.
  split; reflexivity.
Defined.

(** ** Value decoder *)

Section Decoder.

Lemma read_response_delivered (w w' : world) (e : loop_exit) :
  read_frame w = (Ret e, w') →
  read_response w = decode_response e w'.
Proof. intros H. unfold read_response, bind. by rewrite H. Qed.

(** [decode_response] on a delivered frame whose checksum test
    passes. *)
Lemma decode_response_crc_ok a0 a1 rest x (w : world) :
  crc_check (a0 :: a1 :: rest) = Ret true →
  decode_response (Completed (a0 :: a1 :: rest) (len (a0 :: a1 :: rest)) x) w
  = match dispatch (Z.land a1 0x1f) (a0 :: a1 :: rest) (VInt x) w with
    | (Ret v, w') => (Ret (RPair (Z.land a1 0x1f) v), w')
    | (Raise e, w') => (Raise e, w')
    end.
Proof.
  intros Hcrc. unfold decode_response. cbn [nonempty andb].
  rewrite Z.eqb_refl. unfold bind, lift. cbn [getitem lookup list_lookup].
  rewrite Hcrc. reflexivity.
Qed.

(** ... and on one whose checksum test fails. *)
Lemma decode_response_crc_bad a0 a1 rest x (w : world) :
  crc_check (a0 :: a1 :: rest) = Ret false →
  decode_response (Completed (a0 :: a1 :: rest) (len (a0 :: a1 :: rest)) x) w
  = (Ret (RPair (Z.land a1 0x1f) (VInt x)), w).
Proof.
  intros Hcrc. unfold decode_response. cbn [nonempty andb].
  rewrite Z.eqb_refl. unfold bind, lift. cbn [getitem lookup list_lookup].
  rewrite Hcrc. reflexivity.
Qed.

(** [verify_length] on a frame with the length code it is asked for,
    and with another one. *)
Lemma verify_length_ok a0 a1 rest expected_n (w : world) :
  Z.land (a1 ≫ 5) 0x03 = expected_n →
  verify_length (a0 :: a1 :: rest) expected_n w = (Ret tt, w).
Proof.
  intros H. unfold verify_length, bind, lift. cbn [getitem lookup list_lookup].
  by rewrite H, Z.eqb_refl.
Qed.

Lemma verify_length_bad a0 a1 rest expected_n (w : world) :
  Z.land (a1 ≫ 5) 0x03 ≠ expected_n →
  verify_length (a0 :: a1 :: rest) expected_n w
  = (Raise (DMMExceptionUnexpectedLength (Z.land (a1 ≫ 5) 0x03) expected_n), w).
Proof.
  intros H. unfold verify_length, bind, lift. cbn [getitem lookup list_lookup].
  apply Z.eqb_neq in H. by rewrite H.
Qed.

(** The function identifiers whose branch checks a length code. *)
Lemma expected_length_code_cases (f e : Z) :
  expected_length_code f = Some e →
  (0x10 ≤ f ≤ 0x17 ∧ e = 0) ∨ (f = 0x18 ∧ e = 3) ∨
  (f = 0x19 ∧ e = 0) ∨ (f = 0x1a ∧ e = 0).
Proof.
  unfold expected_length_code.
  destruct ((16 <=? f) && (f <=? 23)) eqn:Hscalar.
  { apply andb_true_iff in Hscalar as [?%Z.leb_le ?%Z.leb_le].
    intros [= <-]. left. lia. }
  destruct (Z.eqb_spec f 24) as [->|_]; [intros [= <-]; right; left; lia|].
  destruct (Z.eqb_spec f 25) as [->|_]; [intros [= <-]; right; right; left; lia|].
  destruct (Z.eqb_spec f 26) as [->|_]; [intros [= <-]; right; right; right; lia|].
  done.
Qed.

(** In those branches a failing [verify_length] ends the decoding. *)
Lemma dispatch_verify_length_raises f e arr x (w : world) ex :
  expected_length_code f = Some e →
  verify_length arr e w = (Raise ex, w) →
  dispatch f arr x w = (Raise ex, w).
Proof.
  intros Hexp Hv.
  destruct (expected_length_code_cases _ _ Hexp)
    as [[Hf ->]|[[-> ->]|[[-> ->]|[-> ->]]]].
  - assert (f = 16 ∨ f = 17 ∨ f = 18 ∨ f = 19 ∨
            f = 20 ∨ f = 21 ∨ f = 22 ∨ f = 23) as Hcases by lia.
    destruct Hcases as [->|[->|[->|[->|[->|[->|[->| ->]]]]]]];
      unfold dispatch; cbn [Z.leb Z.ltb Z.eqb Z.compare Pos.compare
                            Pos.compare_cont Pos.eqb andb orb];
      unfold bind at 1; by rewrite Hv.
  - unfold dispatch. cbn [Z.leb Z.ltb Z.eqb Z.compare Pos.compare
                          Pos.compare_cont Pos.eqb andb orb].
    unfold bind at 1. by rewrite Hv.
  - unfold dispatch. cbn [Z.leb Z.ltb Z.eqb Z.compare Pos.compare
                          Pos.compare_cont Pos.eqb andb orb].
    unfold bind at 1. by rewrite Hv.
  - unfold dispatch. cbn [Z.leb Z.ltb Z.eqb Z.compare Pos.compare
                          Pos.compare_cont Pos.eqb andb orb].
    unfold bind at 1. by rewrite Hv.
Qed.

End Decoder.

(** C5. An accepted seven-byte frame with function identifier [0x18]
    decodes to the pair
    [[(byte2&0x7f)<<7 | (byte3&0x7f), (byte4&0x7f)<<7 | (byte5&0x7f)]];
    payload bytes [0x01, 0x02, 0x03, 0x04] (on the wire with the
    continuation bit, [0x81 .. 0x84]) decode to [[130, 388]]. *)
Theorem gear_pair_decode :
  (∀ (w w' : world) (a0 a1 a2 a3 a4 a5 c el x : Z),
     read_frame w = (Ret (Completed [a0; a1; a2; a3; a4; a5; c] el x), w') →
     crc_check [a0; a1; a2; a3; a4; a5; c] = Ret true →
     Z.land a1 0x1f = 0x18 →
     read_response w
     = (Ret (RPair 0x18
               (VList [Z.lor (Z.land a2 0x7f ≪ 7) (Z.land a3 0x7f);
                       Z.lor (Z.land a4 0x7f ≪ 7) (Z.land a5 0x7f)])), w')) ∧
  read_response
    (World (Some <$> [0x00; 0xf8; 0x81; 0x82; 0x83; 0x84; 0x82]) [] 0 [])
  = (Ret (RPair 0x18 (VList [130; 388])), World [] [] 0 []) ∧
  decode_response
    (Completed [0x00; 0xf8; 0x01; 0x02; 0x03; 0x04; 0x82] 7 0x82)
    (World [] [] 0 [])
  = (Ret (RPair 0x18 (VList [130; 388])), World [] [] 0 []).
Proof.
  split; [|split; reflexivity].
  intros w w' a0 a1 a2 a3 a4 a5 c el x Hread Hcrc Hfid.
  destruct (read_frame_delivered _ _ _ _ _ Hread)
    as (Hlen & _ & _ & _ & (b0 & b1 & r & [= <- <- <-] & Hel)).
  rewrite (read_response_delivered _ _ _ Hread), <- Hlen.
  rewrite decode_response_crc_ok, Hfid by done.
  change (dispatch 24) with (dispatch 0x18). unfold dispatch.
  cbn [Z.leb Z.ltb Z.eqb Z.compare Pos.compare Pos.compare_cont Pos.eqb andb orb].
  unfold bind at 1. rewrite verify_length_ok; [reflexivity|].
  rewrite <- Hlen in Hel. change (len _) with 7 in Hel. lia.
Qed.

Lemma gear_pair_decode_witness :
  read_response
    (World (Some <$> [0x00; 0xf8; 0xff; 0x80; 0x80; 0xff; 0xf6]) [] 0 [])
  = (Ret (RPair 0x18 (VList [16256; 127])), World [] [] 0 []).
Proof.
  apply (proj1 gear_pair_decode
           (World (Some <$> [0x00; 0xf8; 0xff; 0x80; 0x80; 0xff; 0xf6]) [] 0 [])
           (World [] [] 0 []) 0x00 0xf8 0xff 0x80 0x80 0xff 0xf6 7 0xf6);
    reflexivity.
Defined.

(** C6. A frame whose checksum test passes and whose length code is not
    the one that the branch of its function identifier checks makes
    [read_response] raise [DMMExceptionUnexpectedLength]: no value is
    returned and nothing is printed.  A four-byte frame with function
    identifier [0x18] is such a frame. *)
Theorem length_code_mismatch :
  (∀ (w w' : world) (arr : list Z) (el x a1 e : Z),
     read_frame w = (Ret (Completed arr el x), w') →
     crc_check arr = Ret true →
     arr !! 1%nat = Some a1 →
     expected_length_code (Z.land a1 0x1f) = Some e →
     Z.land (a1 ≫ 5) 0x03 ≠ e →
     read_response w
     = (Raise (DMMExceptionUnexpectedLength (Z.land (a1 ≫ 5) 0x03) e), w')) ∧
  read_response (World (Some <$> [0x00; 0x98; 0x80; 0x98]) [] 0 [])
  = (Raise (DMMExceptionUnexpectedLength 0 3), World [] [] 0 []).
Proof.
  split; [|reflexivity].
  intros w w' arr el x a1 e Hread Hcrc Ha1 Hexp Hcode.
  destruct (read_frame_delivered _ _ _ _ _ Hread)
    as (Hlen & _ & _ & _ & (b0 & b1 & r & -> & Hel)).
  injection Ha1 as ->.
  rewrite (read_response_delivered _ _ _ Hread), <- Hlen.
  rewrite decode_response_crc_ok by done.
  rewrite (dispatch_verify_length_raises _ e _ _ _
             (DMMExceptionUnexpectedLength (Z.land (a1 ≫ 5) 0x03) e));
    [done|done|by apply verify_length_bad].
Qed.

Lemma length_code_mismatch_witness :
  read_response (World (Some <$> [0x00; 0xb9; 0x80; 0x80; 0xb9]) [] 0 [])
  = (Raise (DMMExceptionUnexpectedLength 1 0), World [] [] 0 []).
Proof.
  apply (proj1 length_code_mismatch
           (World (Some <$> [0x00; 0xb9; 0x80; 0x80; 0xb9]) [] 0 [])
           (World [] [] 0 []) [0x00; 0xb9; 0x80; 0x80; 0xb9] 5 0xb9 0xb9 0);
    [reflexivity|reflexivity|reflexivity|reflexivity|].
  cbv. discriminate.
Defined.

Section Signed.

Lemma dispatch_signed func_id arr x (w : world) :
  func_id = 0x1b ∨ func_id = 0x1e →
  dispatch func_id arr x w
  = match read_signed_val arr with
    | Ret v => (Ret (VInt v), w)
    | Raise e => (Raise e, w)
    end.
Proof.
  intros [-> | ->]; unfold dispatch; cbn; unfold bind, lift;
    by destruct read_signed_val.
Qed.

(** The payload of a frame with at least one payload byte. *)
Lemma slice_payload a0 a1 p ps c :
  slice_2_m1 (a0 :: a1 :: p :: ps ++ [c]) = p :: ps.
Proof.
  unfold slice_2_m1. cbn [drop].
  change (p :: ps ++ [c]) with ((p :: ps) ++ [c]). apply removelast_last.
Qed.

Lemma fold_add_lor (ps : list Z) :
  ∀ x, fold_left (λ x y, (x ≪ 7) + Z.land y 0x7f) ps x
       = fold_left (λ value byte, Z.lor (value ≪ 7) (Z.land byte 0x7f)) ps x.
Proof.
  induction ps as [|p ps IH]; intros x; [done|].
  cbn [fold_left]. by rewrite shift7_add_lor, IH.
Qed.

End Signed.

(** C4. For function identifiers [0x1b] and [0x1e], a four-byte frame
    (one payload byte) decodes to the signed value in [-64, 63] that its
    payload byte carries in its seven low bits; payload byte [0x7f]
    decodes to [-1] and payload byte [0x00] to [0]; for a longer frame
    [read_response] returns the first payload byte read in that way
    with each further payload byte folded in by
    [value = (value << 7) | (byte & 0x7f)]. *)
Theorem signed_integer_decode :
  (∀ (w w' : world) (a0 a1 a2 c el x v : Z),
     read_frame w = (Ret (Completed [a0; a1; a2; c] el x), w') →
     crc_check [a0; a1; a2; c] = Ret true →
     Z.land a1 0x1f = 0x1b ∨ Z.land a1 0x1f = 0x1e →
     -64 ≤ v ≤ 63 →
     Z.land a2 0x7f = v `mod` 128 →
     read_response w = (Ret (RPair (Z.land a1 0x1f) (VInt v)), w')) ∧
  (read_signed_val [0x00; 0x9b; 0x7f; 0x9a] = Ret (-1) ∧
   read_signed_val [0x00; 0x9e; 0x00; 0x9e] = Ret 0 ∧
   read_response (World (Some <$> [0x00; 0x9b; 0xff; 0x9a]) [] 0 [])
   = (Ret (RPair 0x1b (VInt (-1))), World [] [] 0 []) ∧
   read_response (World (Some <$> [0x00; 0x9e; 0x80; 0x9e]) [] 0 [])
   = (Ret (RPair 0x1e (VInt 0)), World [] [] 0 [])) ∧
  (∀ (a0 a1 p c : Z) (ps : list Z),
     read_signed_val (a0 :: a1 :: p :: ps ++ [c])
     = Ret (fold_left (λ value byte, Z.lor (value ≪ 7) (Z.land byte 0x7f))
              ps (sign_extend (p ≪ 1) 8 ≫ 1))) ∧
  (∀ (w w' : world) (a0 a1 p c el x : Z) (ps : list Z),
     read_frame w = (Ret (Completed (a0 :: a1 :: p :: ps ++ [c]) el x), w') →
     crc_check (a0 :: a1 :: p :: ps ++ [c]) = Ret true →
     Z.land a1 0x1f = 0x1b ∨ Z.land a1 0x1f = 0x1e →
     read_response w
     = (Ret (RPair (Z.land a1 0x1f)
               (VInt (fold_left
                        (λ value byte, Z.lor (value ≪ 7) (Z.land byte 0x7f))
                        ps (sign_extend (p ≪ 1) 8 ≫ 1)))), w')) ∧
  (read_response
     (World (Some <$> [0x00; 0xfb; 0xff; 0xff; 0xfe; 0xb8; 0xaf]) [] 0 [])
   = (Ret (RPair 0x1b (VInt (-200))), World [] [] 0 []) ∧
   read_response
     (World (Some <$> [0x00; 0xbe; 0x81; 0x85; 0xc4]) [] 0 [])
   = (Ret (RPair 0x1e (VInt 133)), World [] [] 0 [])).
Proof.
  split; [|split; [repeat split; reflexivity|split; [|split]]].
  - intros w w' a0 a1 a2 c el x v Hread Hcrc Hfid Hv Ha2.
    destruct (read_frame_delivered _ _ _ _ _ Hread) as (Hlen & _).
    rewrite (read_response_delivered _ _ _ Hread), <- Hlen.
    rewrite decode_response_crc_ok, dispatch_signed by done.
    unfold read_signed_val.
    change [a0; a1; a2; c] with (a0 :: a1 :: a2 :: [] ++ [c]).
    rewrite slice_payload. cbn [getitem lookup list_lookup drop fold_left].
    by rewrite (signed7 a2 v).
  - intros a0 a1 p c ps. unfold read_signed_val. rewrite slice_payload.
    cbn [getitem lookup list_lookup drop]. by rewrite fold_add_lor.
  - intros w w' a0 a1 p c el x ps Hread Hcrc Hfid.
    destruct (read_frame_delivered _ _ _ _ _ Hread) as (Hlen & _).
    rewrite (read_response_delivered _ _ _ Hread), <- Hlen.
    rewrite decode_response_crc_ok, dispatch_signed by done.
    unfold read_signed_val. rewrite slice_payload.
    cbn [getitem lookup list_lookup drop]. by rewrite fold_add_lor.
  - split; reflexivity.
Qed.

Lemma signed_integer_decode_witness :
  read_response (World (Some <$> [0x00; 0x9b; 0xc0; 0xdb]) [] 0 [])
  = (Ret (RPair 0x1b (VInt (-64))), World [] [] 0 []) ∧
  read_response
    (World (Some <$> [0x00; 0xfb; 0x80; 0x81; 0x82; 0x83; 0x81]) [] 0 [])
  = (Ret (RPair 0x1b (VInt 16643)), World [] [] 0 []).
Proof.
  split.
  - apply (proj1 signed_integer_decode
             (World (Some <$> [0x00; 0x9b; 0xc0; 0xdb]) [] 0 [])
             (World [] [] 0 []) 0x00 0x9b 0xc0 0xdb 4 0xdb (-64));
      [reflexivity|reflexivity|left; reflexivity|lia|reflexivity].
  - apply (proj1 (proj2 (proj2 (proj2 signed_integer_decode)))
             (World (Some <$> [0x00; 0xfb; 0x80; 0x81; 0x82; 0x83; 0x81]) [] 0 [])
             (World [] [] 0 []) 0x00 0xfb 0x80 0x81 7 0x81 [0x81; 0x82; 0x83]);
      [reflexivity|reflexivity|left; reflexivity].
Defined.

Section Status.

Lemma land_0x7f_range (z : Z) : 0 ≤ Z.land z 0x7f < 128.
Proof.
  change 0x7f with (Z.ones 7). rewrite Z.land_ones by lia.
  apply Z.mod_pos_bound. lia.
Qed.

(** The fields of the status dictionary, bit by bit, checked on each
    of the 128 values of [arr[2] & 0x7f]. *)
Lemma status_dict_fields (s : Z) :
  0 ≤ s < 128 →
  let d := status_dict s in
  d !! "in position" = Some (if Z.testbit s 0 then "0" else "1") ∧
  d !! "motor" = Some (if Z.testbit s 1 then "motor free" else "motor servo") ∧
  d !! "alarm" = Some (match Z.land (s ≫ 2) 0x7 with
                       | 0 => ""
                       | 1 => "lost phase"
                       | 2 => "over current"
                       | 3 => "overheat or over power"
                       | 4 => "corrupt command"
                       | _ => "TBD"
                       end) ∧
  d !! "motion" = Some (if Z.testbit s 5 then "busy" else "completed") ∧
  d !! "pin2" = Some (if Z.testbit s 6 then "1" else "0").
Proof.
  intros Hs.
  assert (∃ n : nat, s = Z.of_nat n ∧ (n < 128)%nat) as (n & -> & Hn)
    by (exists (Z.to_nat s); lia).
  clear Hs.
  do 128 (destruct n as [|n]; [vm_compute; repeat split; reflexivity|]).
  lia.
Qed.

End Status.

(** C9, as the code has it.  An accepted four-byte frame with function
    identifier [0x19] decodes to a dictionary read off [byte2 & 0x7f]:
    bit 0 set gives ['in position'] = ['0'] (not in position), clear
    gives ['1']; bit 1 gives ['motor'] = ['motor free'], else
    ['motor servo']; bits 2 to 4 give ['alarm']: 0 [''] (none),
    1 ['lost phase'], 2 ['over current'], 3 ['overheat or over power'],
    4 ['corrupt command'], above 4 ['TBD']; bit 5 gives ['motion'] =
    ['busy'], else ['completed']; bit 6 gives ['pin2'] = ['1'], else
    ['0'].  For [byte2 & 0x7f = 0x22] bit 0 is clear and bits 1 and 5
    are set: in position, motor free, no alarm, motion busy, pin2 0. *)
Theorem status_record_decode :
  (∀ (w w' : world) (a0 a1 a2 c el x : Z),
     read_frame w = (Ret (Completed [a0; a1; a2; c] el x), w') →
     crc_check [a0; a1; a2; c] = Ret true →
     Z.land a1 0x1f = 0x19 →
     let s := Z.land a2 0x7f in
     ∃ d : gmap string string,
       read_response w = (Ret (RPair 0x19 (VDict d)), w') ∧
       d !! "in position" = Some (if Z.testbit s 0 then "0" else "1") ∧
       d !! "motor" = Some (if Z.testbit s 1 then "motor free" else "motor servo") ∧
       d !! "alarm" = Some (match Z.land (s ≫ 2) 0x7 with
                            | 0 => ""
                            | 1 => "lost phase"
                            | 2 => "over current"
                            | 3 => "overheat or over power"
                            | 4 => "corrupt command"
                            | _ => "TBD"
                            end) ∧
       d !! "motion" = Some (if Z.testbit s 5 then "busy" else "completed") ∧
       d !! "pin2" = Some (if Z.testbit s 6 then "1" else "0")) ∧
  read_response (World (Some <$> [0x00; 0x99; 0xa2; 0xbb]) [] 0 [])
  = (Ret (RPair 0x19
            (VDict {[ "in position" := "1"; "motor" := "motor free";
                      "alarm" := ""; "motion" := "busy"; "pin2" := "0" ]})),
     World [] [] 0 []) ∧
  decode_response (Completed [0x00; 0x99; 0x22; 0xbb] 4 0xbb) (World [] [] 0 [])
  = (Ret (RPair 0x19
            (VDict {[ "in position" := "1"; "motor" := "motor free";
                      "alarm" := ""; "motion" := "busy"; "pin2" := "0" ]})),
     World [] [] 0 []).
Proof.
  split; [|split; reflexivity].
  intros w w' a0 a1 a2 c el x Hread Hcrc Hfid s.
  destruct (read_frame_delivered _ _ _ _ _ Hread)
    as (Hlen & _ & _ & _ & (b0 & b1 & r & [= <- <- <-] & Hel)).
  exists (status_dict s). split; [|apply status_dict_fields, land_0x7f_range].
  rewrite (read_response_delivered _ _ _ Hread), <- Hlen.
  rewrite decode_response_crc_ok, Hfid by done.
  change (dispatch 25) with (dispatch 0x19). unfold dispatch.
  cbn [Z.leb Z.ltb Z.eqb Z.compare Pos.compare Pos.compare_cont Pos.eqb andb orb].
  unfold bind at 1. rewrite verify_length_ok; [reflexivity|].
  rewrite <- Hlen in Hel. change (len _) with 4 in Hel. lia.
Qed.

Lemma status_record_decode_witness :
  ∃ d : gmap string string,
    read_response (World (Some <$> [0x00; 0x99; 0x83; 0x9c]) [] 0 [])
    = (Ret (RPair 0x19 (VDict d)), World [] [] 0 []) ∧
    d !! "in position" = Some "0" ∧
    d !! "motor" = Some "motor free" ∧
    d !! "alarm" = Some "" ∧
    d !! "motion" = Some "completed" ∧
    d !! "pin2" = Some "0".
Proof.
  apply (proj1 status_record_decode
           (World (Some <$> [0x00; 0x99; 0x83; 0x9c]) [] 0 [])
           (World [] [] 0 []) 0x00 0x99 0x83 0x9c 4 0x9c); reflexivity.
Defined.

(** The reading of [0x22] given with C9 (not in position, motion not
    busy) is not what the decoder returns for that byte. *)
Lemma status_0x22_counterexample :
  ∃ d : gmap string string,
    read_response (World (Some <$> [0x00; 0x99; 0xa2; 0xbb]) [] 0 [])
    = (Ret (RPair 0x19 (VDict d)), World [] [] 0 []) ∧
    decode_response (Completed [0x00; 0x99; 0x22; 0xbb] 4 0xbb) (World [] [] 0 [])
    = (Ret (RPair 0x19 (VDict d)), World [] [] 0 []) ∧
    d !! "in position" = Some "1" ∧
    d !! "motion" = Some "busy" ∧
    ¬ (d !! "in position" = Some "0" ∧
       d !! "motor" = Some "motor free" ∧
       d !! "alarm" = Some "" ∧
       d !! "motion" = Some "completed" ∧
       d !! "pin2" = Some "0").
Proof.
  exists (status_dict 0x22). repeat split; try reflexivity.
  intros ([=] & _).
Qed.

(** C10. When the loop delivers a frame whose checksum test fails,
    [read_response] raises nothing, prints nothing and decodes nothing:
    it returns the pair of the function identifier taken from byte 1
    and the local [x] as the loop left it, which is the last byte read
    from the port, the checksum byte of the frame. *)
Theorem checksum_failure_returns_raw_byte
    (w w' : world) (arr : list Z) (el x : Z) :
  read_frame w = (Ret (Completed arr el x), w') →
  crc_check arr = Ret false →
  ∃ a1 : Z,
    arr !! 1%nat = Some a1 ∧
    last arr = Some x ∧
    stdout w' = stdout w ∧
    read_response w = (Ret (RPair (Z.land a1 0x1f) (VInt x)), w').
Proof.
  intros Hread Hcrc.
  destruct (read_frame_delivered _ _ _ _ _ Hread)
    as (Hlen & _ & Hlast & _ & (a0 & a1 & r & -> & Hel)).
  exists a1. repeat split; [done|..].
  - revert Hread. unfold read_frame. destruct (read_loop _ _ _).
    by intros [= _ <-].
  - rewrite (read_response_delivered _ _ _ Hread), <- Hlen.
    by apply decode_response_crc_bad.
Qed.

Lemma checksum_failure_returns_raw_byte_witness :
  ∃ a1 : Z,
    [0x00; 0x90; 0x85; 0x94] !! 1%nat = Some a1 ∧
    last [0x00; 0x90; 0x85; 0x94] = Some 0x94 ∧
    stdout (World [] [] 0 []) = [] ∧
    read_response (World (Some <$> [0x00; 0x90; 0x85; 0x94]) [] 0 [])
    = (Ret (RPair (Z.land a1 0x1f) (VInt 0x94)), World [] [] 0 []).
Proof.
  apply (checksum_failure_returns_raw_byte
           (World (Some <$> [0x00; 0x90; 0x85; 0x94]) [] 0 [])
           (World [] [] 0 []) [0x00; 0x90; 0x85; 0x94] 4 0x94); reflexivity.
Defined.

(** C8, as the code has it.  When the loop delivers a frame whose
    checksum test passes and whose function identifier is in
    [0x00 .. 0x0a] or above [0x1e], the frame is reported
    (['Unallowed address read:']) and no decoding branch runs; what
    [read_response] returns is still a pair: the function identifier
    and the local [x] as the loop left it, the last byte read, which
    has its continuation bit set and so lies outside [0 .. 127]. *)
Theorem unallowed_function_id
    (w w' : world) (arr : list Z) (el x a1 : Z) :
  read_frame w = (Ret (Completed arr el x), w') →
  crc_check arr = Ret true →
  arr !! 1%nat = Some a1 →
  0x00 ≤ Z.land a1 0x1f ≤ 0x0a ∨ 0x1e < Z.land a1 0x1f →
  read_response w
  = (Ret (RPair (Z.land a1 0x1f) (VInt x)),
     World (rx w') (tx w') (wlimit w')
       (stdout w' ++ [Unallowed_address_read (Z.land a1 0x1f)])) ∧
  last arr = Some x ∧
  Z.land x 0x80 ≠ 0 ∧
  ¬ (0 ≤ x ≤ 127).
Proof.
  intros Hread Hcrc Ha1 Hfid.
  destruct (read_frame_delivered _ _ _ _ _ Hread)
    as (Hlen & _ & Hlast & Hx & (b0 & b1 & r & -> & Hel)).
  injection Ha1 as ->. repeat split; [|done|done|].
  - rewrite (read_response_delivered _ _ _ Hread), <- Hlen.
    rewrite decode_response_crc_ok by done. unfold dispatch.
    replace ((0 <=? Z.land a1 31) && (Z.land a1 31 <=? 10) || (30 <? Z.land a1 31))
      with true; [done|].
    symmetry. apply orb_true_iff. destruct Hfid as [[H1 H2]|H].
    + left. apply andb_true_iff. split; by apply Z.leb_le.
    + right. by apply Z.ltb_lt.
  - intros Hrange. apply Hx, start_small. lia.
Qed.

Lemma unallowed_function_id_witness :
  read_response (World (Some <$> [0x00; 0x85; 0x80; 0x85]) [] 0 [])
  = (Ret (RPair 0x05 (VInt 0x85)), World [] [] 0 [Unallowed_address_read 0x05]) ∧
  last [0x00; 0x85; 0x80; 0x85] = Some 0x85 ∧
  Z.land 0x85 0x80 ≠ 0 ∧
  ¬ (0 ≤ 0x85 ≤ 127).
Proof.
  apply (unallowed_function_id
           (World (Some <$> [0x00; 0x85; 0x80; 0x85]) [] 0 [])
           (World [] [] 0 []) [0x00; 0x85; 0x80; 0x85] 4 0x85 0x85);
    [reflexivity|reflexivity|reflexivity|].
  left. change (Z.land 0x85 0x1f) with 5. lia.
Defined.

(** ** Command session *)

Section Session.

(** One pass through the [for] loop, by what [read_response]
    returned. *)
Lemma check_loop_mismatch e i r iv (w w1 : world) func_id v :
  read_response w = (Ret (RPair func_id v), w1) →
  func_id ≠ e →
  check_loop e (i :: r) iv w = check_loop e r (Some (i, v)) w1.
Proof.
  intros Hresp Hne. cbn [check_loop]. unfold bind. rewrite Hresp.
  apply Z.eqb_neq in Hne. by rewrite Hne.
Qed.

Lemma check_loop_match e i r iv (w w1 : world) v :
  read_response w = (Ret (RPair e v), w1) →
  check_loop e (i :: r) iv w = (Ret (Some (i, v)), w1).
Proof.
  intros Hresp. cbn [check_loop]. unfold bind.
  by rewrite Hresp, Z.eqb_refl.
Qed.

Lemma check_loop_False e i r iv (w w1 : world) :
  read_response w = (Ret RFalse, w1) →
  check_loop e (i :: r) iv w = (Raise TypeError, w1).
Proof. intros Hresp. cbn [check_loop]. unfold bind. by rewrite Hresp. Qed.

(** The exceptions of the decoder are [DMMExceptionUnexpectedLength]
    and [IndexError]. *)
Lemma dispatch_raises func_id arr x (w w' : world) ex :
  dispatch func_id arr x w = (Raise ex, w') →
  ex ≠ DMMExceptionUnexpectedFunc.
Proof.
  unfold dispatch, verify_length, read_signed_val, getitem, bind, lift,
    print, ret, raise.
  intros H. repeat case_match; by simplify_eq.
Qed.

Lemma read_response_raises (w w' : world) ex :
  read_response w = (Raise ex, w') → ex ≠ DMMExceptionUnexpectedFunc.
Proof.
  unfold read_response, bind at 1, read_frame.
  destruct (read_loop (rx w) [] 0) as [[|arr el x] q]; [by intros [=]|].
  unfold decode_response.
  destruct (nonempty arr && (el =? len arr)); [|by intros [= <- _]].
  unfold bind, lift, getitem, crc_check, getlast.
  destruct (arr !! 0%nat); [|by intros [= <- _]].
  destruct (arr !! 1%nat); [|by intros [= <- _]].
  destruct (last arr); [|by intros [= <- _]].
  destruct (Z.land _ 127 =? 0).
  - destruct (dispatch _ _ _ _) as [[v|ex'] w''] eqn:Hd; [by intros [=]|].
    intros [= <- _]. by eapply dispatch_raises.
  - by intros [=].
Qed.

(** The index that the loop leaves in [i] is one of [range]. *)
Lemma check_loop_index e (r : list Z) :
  ∀ iv (w w' : world) i v,
    check_loop e r iv w = (Ret (Some (i, v)), w') →
    iv = Some (i, v) ∨ i ∈ r.
Proof.
  induction r as [|j r IH]; intros iv w w' i v.
  - intros [= -> _]. by left.
  - cbn [check_loop]. unfold bind.
    destruct (read_response w) as [[[|f u]|ex] w1]; [done| |done].
    destruct (f =? e).
    + intros [= -> -> _]. right. by left.
    + intros H. apply IH in H as [[= -> ->]|H]; right; [by left|by right].
Qed.

Lemma check_loop_raises e (r : list Z) :
  ∀ iv (w w' : world) ex,
    check_loop e r iv w = (Raise ex, w') →
    ex ≠ DMMExceptionUnexpectedFunc.
Proof.
  induction r as [|j r IH]; intros iv w w' ex; [done|].
  cbn [check_loop]. unfold bind.
  destruct (read_response w) as [[[|f u]|ex'] w1] eqn:Hresp.
  - by intros [= <- _].
  - destruct (f =? e); [done|]. apply IH.
  - intros [= <- _]. by eapply read_response_raises.
Qed.

Lemma elem_of_range (i n : Z) : i ∈ range n → 0 ≤ i < n.
Proof.
  unfold range. intros (k & -> & Hk)%list_elem_of_fmap.
  apply elem_of_seq in Hk. lia.
Qed.

(** The [raise DMMExceptionUnexpectedFunc()] of [check_response] is
    never reached: after the loop [i] is at most [max_attempts - 1]. *)
Lemma check_response_never_UnexpectedFunc e max_attempts (w w' : world) :
  check_response e max_attempts w ≠ (Raise DMMExceptionUnexpectedFunc, w').
Proof.
  unfold check_response, bind.
  destruct (check_loop e (range max_attempts) None w)
    as [[[[i v]|]|ex] w1] eqn:Hloop.
  - apply check_loop_index in Hloop as [[=]|Hi%elem_of_range].
    replace (i =? max_attempts) with false
      by (symmetry; apply Z.eqb_neq; lia).
    done.
  - done.
  - intros [= -> _]. by eapply check_loop_raises.
Qed.

End Session.

(** C1, evaluated on the code.  When the first two responses carry a
    function identifier other than the expected one, [check_response]
    with the default bound returns the value of the third response,
    whether the third response matches or not: after three responses
    that do not match it returns the value of the third and does not
    raise [DMMExceptionUnexpectedFunc]. *)
Theorem check_response_third_attempt
    (e : Z) (w0 w1 w2 w3 : world) (f1 f2 f3 : Z) (v1 v2 v3 : value) :
  read_response w0 = (Ret (RPair f1 v1), w1) →
  read_response w1 = (Ret (RPair f2 v2), w2) →
  read_response w2 = (Ret (RPair f3 v3), w3) →
  f1 ≠ e → f2 ≠ e →
  check_response e max_attempts_default w0 = (Ret v3, w3) ∧
  check_response e max_attempts_default w0
  ≠ (Raise DMMExceptionUnexpectedFunc, w3).
Proof.
  intros H1 H2 H3 Hf1 Hf2. split; [|apply check_response_never_UnexpectedFunc].
  unfold check_response, bind. change (range max_attempts_default) with [0; 1; 2].
  rewrite (check_loop_mismatch _ _ _ _ _ _ _ _ H1 Hf1).
  rewrite (check_loop_mismatch _ _ _ _ _ _ _ _ H2 Hf2).
  destruct (Z.eq_dec f3 e) as [->|Hf3].
  - by rewrite (check_loop_match _ _ _ _ _ _ _ H3).
  - by rewrite (check_loop_mismatch _ _ _ _ _ _ _ _ H3 Hf3).
Qed.

(** Three [Is_SpeedGain] frames in answer to a wait for [Is_MainGain]:
    the speed gain of the third frame is returned. *)
Lemma check_response_third_attempt_witness :
  let frame k := [0x00; 0x91; 0x80 + k; 0x91 + k] in
  let w n := World (Some <$> concat (frame <$> drop n [5; 6; 7])) [] 0 [] in
  check_response 0x10 max_attempts_default (w 0%nat) = (Ret (VInt 7), w 3%nat) ∧
  check_response 0x10 max_attempts_default (w 0%nat)
  ≠ (Raise DMMExceptionUnexpectedFunc, w 3%nat).
Proof.
  intros frame w.
  apply (check_response_third_attempt 0x10 (w 0%nat) (w 1%nat) (w 2%nat) (w 3%nat)
           0x11 0x11 0x11 (VInt 5) (VInt 6) (VInt 7));
    [reflexivity|reflexivity|reflexivity|lia|lia].
Defined.

(** C7, evaluated on the code.  When a read times out before a frame
    is complete, [read_response] returns [False], and the unpacking
    [func_id, v = self.read_response()] in [check_response] raises
    [TypeError]: the call ends there, whatever is left of the retry
    budget and whatever arrives later. *)
Theorem check_response_timeout (e max_attempts : Z) (w w' : world) :
  read_frame w = (Ret Timed_out, w') →
  0 < max_attempts →
  read_response w = (Ret RFalse, w') ∧
  check_response e max_attempts w = (Raise TypeError, w').
Proof.
  intros Hread Hn.
  assert (read_response w = (Ret RFalse, w')) as Hresp.
  { by rewrite (read_response_delivered _ _ _ Hread). }
  split; [done|]. unfold check_response, bind, range.
  destruct (Z.to_nat max_attempts) as [|k] eqn:Hk; [lia|].
  cbn [seq fmap list_fmap].
  by rewrite (check_loop_False _ _ _ _ _ _ Hresp).
Qed.

(** A timeout followed by the frame that was waited for. *)
Lemma check_response_timeout_witness :
  let answer := Some <$> [0x00; 0x90; 0x85; 0x95] in
  read_response (World (None :: answer) [] 0 [])
  = (Ret RFalse, World answer [] 0 []) ∧
  check_response 0x10 max_attempts_default (World (None :: answer) [] 0 [])
  = (Raise TypeError, World answer [] 0 []).
Proof.
  intros answer.
  apply (check_response_timeout 0x10 max_attempts_default
           (World (None :: answer) [] 0 []) (World answer [] 0 []));
    [reflexivity|reflexivity].
Defined.

(** Counterexample to C8 as worded (the frame is discarded and yields
    no value): a checksum-valid frame with function identifier [0x05]
    comes back from [read_response] as
    a pair with the integer [0x85] in the value position, the same pair
    shape and the same integer that the two-byte signed payload
    [0x81 0x85] of an [Is_AbsPos32] frame decodes to; and when the
    drive answers [read_MainGain] with such frames the integer is
    returned to the caller. *)
Lemma unallowed_frame_yields_value :
  let unallowed := [0x00; 0x85; 0x80; 0x85] in
  let signed := [0x00; 0xbb; 0x81; 0x85; 0xc1] in
  crc_check unallowed = Ret true ∧
  (read_response (World (Some <$> unallowed) [] 0 [])).1
  = Ret (RPair 0x05 (VInt 0x85)) ∧
  (read_response (World (Some <$> signed) [] 0 [])).1
  = Ret (RPair 0x1b (VInt 0x85)) ∧
  (read_MainGain 0
     (World (Some <$> unallowed ++ unallowed ++ unallowed) [] 4 [])).1
  = Ret (VInt 0x85) ∧
  ¬ (∀ v, (read_response (World (Some <$> unallowed) [] 0 [])).1
          ≠ Ret (RPair 0x05 v)).
Proof.
  intros unallowed signed. repeat split; try reflexivity.
  intros H. by apply (H (VInt 0x85)).
Qed.

(** * Further properties of the code *)
(** ** Signed integers *)

Section SignedValues.

Lemma mod_pow2_split (a n : Z) :
  0 ≤ n →
  a `mod` 2 ^ (n + 1)
  = a `mod` 2 ^ n + (if Z.testbit a n then 2 ^ n else 0).
Proof.
  intros Hn. rewrite Z.pow_add_r, Z.pow_1_r by lia.
  rewrite Z.rem_mul_r by lia.
  rewrite <- Z.testbit_spec' by done.
  destruct (Z.testbit a n); cbn [Z.b2z]; lia.
Qed.

Lemma sign_extend_unfold (value bits : Z) :
  1 ≤ bits →
  sign_extend value bits
  = value `mod` 2 ^ (bits - 1)
    - (if Z.testbit value (bits - 1) then 2 ^ (bits - 1) else 0).
Proof.
  intros Hb. unfold sign_extend.
  rewrite Z.shiftl_1_l, land_pow2 by lia.
  rewrite Z.sub_1_r, <- Z.ones_equiv, Z.land_ones by lia. done.
Qed.

(** The low seven bits survive the continuation bit. *)
Lemma low7_lor (y : Z) : Z.land (Z.lor 0x80 (Z.land y 0x7f)) 0x7f = Z.land y 0x7f.
Proof.
  rewrite Z.land_lor_distr_l. change (Z.land 0x80 0x7f) with 0.
  rewrite Z.lor_0_l, <- Z.land_assoc. by change (Z.land 0x7f 0x7f) with 0x7f.
Qed.

Lemma low7_mod (y : Z) : Z.land y 0x7f = y `mod` 128.
Proof. change 0x7f with (Z.ones 7). by rewrite Z.land_ones. Qed.

(** The first payload byte gives a number in [-64, 63]. *)
Lemma signed7_range (b : Z) : -64 ≤ sign_extend (b ≪ 1) 8 ≫ 1 ≤ 63.
Proof.
  rewrite sign_extend_unfold by lia. change (8 - 1) with 7.
  rewrite Z.shiftr_div_pow2 by lia. change (2 ^ 7) with 128. change (2 ^ 1) with 2.
  pose proof (Z.mod_pos_bound (b ≪ 1) 128).
  destruct (Z.testbit (b ≪ 1) 7); Z.div_mod_to_equations; lia.
Qed.

(** Each further payload byte multiplies the bound by 128. *)
Lemma fold_groups_range (ps : list Z) :
  ∀ (x j : Z),
    0 ≤ j →
    -64 * 128 ^ j ≤ x < 64 * 128 ^ j →
    let r := fold_left (λ x y, (x ≪ 7) + Z.land y 0x7f) ps x in
    -64 * 128 ^ (j + len ps) ≤ r < 64 * 128 ^ (j + len ps).
Proof.
  induction ps as [|p ps IH]; intros x j Hj Hx; cbv zeta.
  - change (len []) with 0. by rewrite Z.add_0_r.
  - cbn [fold_left].
    replace (j + len (p :: ps)) with ((j + 1) + len ps)
      by (unfold len; cbn [length]; lia).
    apply IH; [lia|].
    rewrite Z.pow_add_r, Z.pow_1_r by lia.
    rewrite Z.shiftl_mul_pow2, low7_mod by lia. change (2 ^ 7) with 128.
    pose proof (Z.mod_pos_bound p 128). lia.
Qed.

(** The four seven-bit groups of a number in [-2^27, 2^27), as payload
    of a seven-byte frame, are read back as that number. *)
Lemma read_signed_val_groups28 (a0 a1 n c : Z) :
  -2 ^ 27 ≤ n < 2 ^ 27 →
  read_signed_val (a0 :: a1 :: groups28 n ++ [c]) = Ret n.
Proof.
  intros Hn. unfold groups28, read_signed_val.
  match goal with
  | |- context [slice_2_m1 (?a0 :: ?a1 :: [?p; ?p2; ?p1; ?p0] ++ [?c])] =>
      change (a0 :: a1 :: [p; p2; p1; p0] ++ [c])
        with (a0 :: a1 :: p :: [p2; p1; p0] ++ [c])
  end.
  rewrite slice_payload. cbn [getitem lookup list_lookup drop fold_left].
  rewrite (signed7 _ (n ≫ (7 * 3))).
  - rewrite !low7_lor, !low7_mod, !Z.shiftl_mul_pow2, !Z.shiftr_div_pow2 by lia.
    change (7 * 3) with 21. change (7 * 2) with 14. change (7 * 1) with 7.
    change (7 * 0) with 0. change (2 ^ 27) with 134217728 in Hn.
    change (2 ^ 21) with 2097152. change (2 ^ 14) with 16384.
    change (2 ^ 7) with 128. change (2 ^ 0) with 1.
    f_equal. Z.div_mod_to_equations. lia.
  - rewrite Z.shiftr_div_pow2 by lia. change (7 * 3) with 21.
    change (2 ^ 27) with 134217728 in Hn. change (2 ^ 21) with 2097152.
    Z.div_mod_to_equations. lia.
  - by rewrite low7_lor, low7_mod.
Qed.

End SignedValues.

(** X1. [sign_extend(value, bits)] for at least one bit lies in
    [-2^(bits-1), 2^(bits-1)), differs from [value] by a multiple of
    [2^bits], and returns a [value] already in that range unchanged. *)
Theorem sign_extend_twos_complement (value bits : Z) :
  1 ≤ bits →
  -2 ^ (bits - 1) ≤ sign_extend value bits < 2 ^ (bits - 1) ∧
  (sign_extend value bits - value) `mod` 2 ^ bits = 0 ∧
  (-2 ^ (bits - 1) ≤ value < 2 ^ (bits - 1) → sign_extend value bits = value).
Proof.
  intros Hb. rewrite sign_extend_unfold by done.
  assert (0 < 2 ^ (bits - 1)) as Hpos by (apply Z.pow_pos_nonneg; lia).
  pose proof (Z.mod_pos_bound value (2 ^ (bits - 1)) Hpos) as Hm.
  pose proof (mod_pow2_split value (bits - 1)) as Hsplit.
  replace (bits - 1 + 1) with bits in Hsplit by lia.
  assert (2 ^ bits = 2 * 2 ^ (bits - 1)) as Hpow.
  { replace bits with (bits - 1 + 1) at 1 by lia.
    rewrite Z.pow_add_r, Z.pow_1_r by lia. lia. }
  pose proof (Z.div_mod value (2 ^ bits)) as Hdm.
  set (P := 2 ^ (bits - 1)) in *. set (m := value `mod` P) in *.
  assert ((m - (if Z.testbit value (bits - 1) then P else 0) - value)
          = (- (value `div` 2 ^ bits) - (if Z.testbit value (bits - 1) then 1 else 0))
            * 2 ^ bits) as Hdiff.
  { destruct (Z.testbit value (bits - 1)); nia. }
  split; [destruct (Z.testbit value (bits - 1)); lia|]. split.
  - rewrite Hdiff. apply Z.mod_mul. lia.
  - intros Hv. revert Hdiff.
    generalize (- (value `div` 2 ^ bits)
                - (if Z.testbit value (bits - 1) then 1 else 0)).
    intros k Hk. rewrite Hpow in Hk.
    assert (k = 0) as -> by (destruct (Z.testbit value (bits - 1)); nia).
    lia.
Qed.

Lemma sign_extend_twos_complement_witness :
  -2 ^ (8 - 1) ≤ sign_extend 0xfe 8 < 2 ^ (8 - 1) ∧
  (sign_extend 0xfe 8 - 0xfe) `mod` 2 ^ 8 = 0 ∧
  (-2 ^ (8 - 1) ≤ 0xfe < 2 ^ (8 - 1) → sign_extend 0xfe 8 = 0xfe).
Proof. apply (sign_extend_twos_complement 0xfe 8). lia. Defined.

(** X2. The four payload bytes that [set_speed] builds from a speed in
    [-2^27, 2^27) are read back by [read_signed_val] as that speed. *)
Theorem set_speed_read_signed_val (drive_id rpm : Z) :
  -2 ^ 27 ≤ rpm < 2 ^ 27 →
  read_signed_val (set_speed_packet drive_id rpm) = Ret rpm.
Proof.
  intros Hrpm. unfold set_speed_packet, add_checksum.
  match goal with
  | |- read_signed_val ([?a0; ?a1; ?p3; ?p2; ?p1; ?p0] ++ [?c]) = _ =>
      change ([a0; a1; p3; p2; p1; p0] ++ [c])
        with (a0 :: a1 :: groups28 rpm ++ [c])
  end.
  by apply read_signed_val_groups28.
Qed.

Lemma set_speed_read_signed_val_witness :
  read_signed_val (set_speed_packet 0 (-3000)) = Ret (-3000).
Proof. apply (set_speed_read_signed_val 0 (-3000)). lia. Defined.

(** X3. The number that [read_signed_val] returns for a frame with
    [1 + n] payload bytes lies in [-64 * 128^n, 64 * 128^n). *)
Theorem read_signed_val_range (a0 a1 p c : Z) (ps : list Z) :
  ∃ v, read_signed_val (a0 :: a1 :: p :: ps ++ [c]) = Ret v ∧
       -64 * 128 ^ len ps ≤ v < 64 * 128 ^ len ps.
Proof.
  unfold read_signed_val. rewrite slice_payload.
  cbn [getitem lookup list_lookup drop]. eexists. split; [done|].
  pose proof (signed7_range p).
  apply (fold_groups_range ps _ 0); lia.
Qed.

(** ** Further branches of the decoder *)

Section Branches.

(** The fields of the configuration dictionary, bit by bit, checked on
    each of the 128 values of [arr[2] & 0x7f]. *)
Lemma config_dict_fields (s : Z) :
  0 ≤ s < 128 →
  let d := config_dict s in
  d !! "input mode" = Some (match Z.land s 0x03 with
                            | 0 => "RS232"
                            | 1 => "CW/CCW"
                            | 2 => "pulse/dir"
                            | _ => "analog"
                            end) ∧
  d !! "positioning" = Some (if Z.testbit s 2 then "absolute" else "relative") ∧
  d !! "servo mode" = Some (match Z.land (s ≫ 3) 0x03 with
                            | 0 => "position"
                            | 1 => "speed"
                            | 2 => "torque"
                            | _ => "TBD"
                            end) ∧
  d !! "enabled" = Some (if Z.testbit s 5 then "yes" else "no") ∧
  d !! "b6" = Some (if Z.testbit s 6 then "1 TBD" else "0 TBD") ∧
  size d = 5%nat.
Proof.
  intros Hs.
  assert (∃ n : nat, s = Z.of_nat n ∧ (n < 128)%nat) as (n & -> & Hn)
    by (exists (Z.to_nat s); lia).
  clear Hs.
  do 128 (destruct n as [|n]; [vm_compute; repeat split; reflexivity|]).
  lia.
Qed.

(** A delivered frame of four bytes has length code 0. *)
Lemma delivered_4 (w w' : world) a0 a1 a2 c el x :
  read_frame w = (Ret (Completed [a0; a1; a2; c] el x), w') →
  el = len [a0; a1; a2; c] ∧ Z.land (a1 ≫ 5) 0x03 = 0 ∧ x = c.
Proof.
  intros Hread.
  destruct (read_frame_delivered _ _ _ _ _ Hread)
    as (Hlen & _ & Hlast & _ & (b0 & b1 & r & [= <- <- <-] & Hel)).
  rewrite <- Hlen in Hel. change (len _) with 4 in Hel.
  cbn in Hlast. injection Hlast as <-. repeat split; [done|lia].
Qed.

End Branches.

(** X4. An accepted four-byte frame with a function identifier from
    [0x10] to [0x17] decodes to the number [byte2 & 0x7f], which lies
    in [0, 127]; nothing is printed. *)
Theorem scalar7_decode (w w' : world) (a0 a1 a2 c el x : Z) :
  read_frame w = (Ret (Completed [a0; a1; a2; c] el x), w') →
  crc_check [a0; a1; a2; c] = Ret true →
  0x10 ≤ Z.land a1 0x1f ≤ 0x17 →
  read_response w = (Ret (RPair (Z.land a1 0x1f) (VInt (Z.land a2 0x7f))), w') ∧
  0 ≤ Z.land a2 0x7f ≤ 127.
Proof.
  intros Hread Hcrc Hfid.
  destruct (delivered_4 _ _ _ _ _ _ _ _ Hread) as (-> & Hcode & _).
  split; [|pose proof (land_0x7f_range a2); lia].
  rewrite (read_response_delivered _ _ _ Hread).
  rewrite decode_response_crc_ok by done.
  assert (Z.land a1 31 = 16 ∨ Z.land a1 31 = 17 ∨ Z.land a1 31 = 18 ∨
          Z.land a1 31 = 19 ∨ Z.land a1 31 = 20 ∨ Z.land a1 31 = 21 ∨
          Z.land a1 31 = 22 ∨ Z.land a1 31 = 23) as Hcases by lia.
  destruct Hcases as [->|[->|[->|[->|[->|[->|[->| ->]]]]]]];
    unfold dispatch; cbn [Z.leb Z.ltb Z.eqb Z.compare Pos.compare
                          Pos.compare_cont Pos.eqb andb orb];
    unfold bind at 1; by rewrite verify_length_ok.
Qed.

Lemma scalar7_decode_witness :
  read_response (World (Some <$> [0x00; 0x97; 0xe4; 0xfb]) [] 0 [])
  = (Ret (RPair 0x17 (VInt 100)), World [] [] 0 []) ∧
  0 ≤ 100 ≤ 127.
Proof.
  apply (scalar7_decode (World (Some <$> [0x00; 0x97; 0xe4; 0xfb]) [] 0 [])
           (World [] [] 0 []) 0x00 0x97 0xe4 0xfb 4 0xfb);
    [reflexivity|reflexivity|].
  change (Z.land 0x97 0x1f) with 0x17. lia.
Defined.

(** X5. An accepted four-byte frame with function identifier [0x1a]
    prints [hex(byte2 & 0x7f)] and decodes to a dictionary of exactly
    five keys read off [byte2 & 0x7f]: bits 0-1 give ['input mode']
    (['RS232'], ['CW/CCW'], ['pulse/dir'], ['analog']), bit 2 gives
    ['positioning'] (['absolute'] when set, else ['relative']), bits
    3-4 give ['servo mode'] (['position'], ['speed'], ['torque'],
    ['TBD']), bit 5 gives ['enabled'] (['yes'] when set, else ['no']),
    bit 6 gives ['b6']. *)
Theorem config_record_decode (w w' : world) (a0 a1 a2 c el x : Z) :
  read_frame w = (Ret (Completed [a0; a1; a2; c] el x), w') →
  crc_check [a0; a1; a2; c] = Ret true →
  Z.land a1 0x1f = 0x1a →
  let s := Z.land a2 0x7f in
  ∃ d : gmap string string,
    read_response w
    = (Ret (RPair 0x1a (VDict d)),
       World (rx w') (tx w') (wlimit w') (stdout w' ++ [Hex s])) ∧
    d !! "input mode" = Some (match Z.land s 0x03 with
                              | 0 => "RS232"
                              | 1 => "CW/CCW"
                              | 2 => "pulse/dir"
                              | _ => "analog"
                              end) ∧
    d !! "positioning" = Some (if Z.testbit s 2 then "absolute" else "relative") ∧
    d !! "servo mode" = Some (match Z.land (s ≫ 3) 0x03 with
                              | 0 => "position"
                              | 1 => "speed"
                              | 2 => "torque"
                              | _ => "TBD"
                              end) ∧
    d !! "enabled" = Some (if Z.testbit s 5 then "yes" else "no") ∧
    d !! "b6" = Some (if Z.testbit s 6 then "1 TBD" else "0 TBD") ∧
    size d = 5%nat.
Proof.
  intros Hread Hcrc Hfid s.
  destruct (delivered_4 _ _ _ _ _ _ _ _ Hread) as (-> & Hcode & _).
  exists (config_dict s). split; [|apply config_dict_fields, land_0x7f_range].
  rewrite (read_response_delivered _ _ _ Hread).
  rewrite decode_response_crc_ok, Hfid by done.
  change (dispatch 26) with (dispatch 0x1a). unfold dispatch.
  cbn [Z.leb Z.ltb Z.eqb Z.compare Pos.compare Pos.compare_cont Pos.eqb andb orb].
  unfold bind at 1. by rewrite verify_length_ok.
Qed.

(** The configuration byte that [set_Config] sends, read back. *)
Lemma config_record_decode_witness :
  ∃ d : gmap string string,
    read_response (World (Some <$> [0x00; 0x9a; 0x80 + cnf; 0xc5]) [] 0 [])
    = (Ret (RPair 0x1a (VDict d)), World [] [] 0 [Hex cnf]) ∧
    d !! "input mode" = Some "analog" ∧
    d !! "positioning" = Some "relative" ∧
    d !! "servo mode" = Some "speed" ∧
    d !! "enabled" = Some "yes" ∧
    d !! "b6" = Some "0 TBD" ∧
    size d = 5%nat.
Proof.
  apply (config_record_decode
           (World (Some <$> [0x00; 0x9a; 0x80 + cnf; 0xc5]) [] 0 [])
           (World [] [] 0 []) 0x00 0x9a (0x80 + cnf) 0xc5 4 0xc5); reflexivity.
Defined.

(** X6. A checksum-valid frame with function identifier [0x1c] or
    [0x1d] is reported (['Unknown address read:']), and one with a
    function identifier from [0x0b] to [0x0f] is not reported at all;
    in both cases no branch decodes, no length is checked, and
    [read_response] returns the function identifier with the last byte
    read. *)
Theorem undecoded_function_ids
    (w w' : world) (arr : list Z) (el x a1 : Z) :
  read_frame w = (Ret (Completed arr el x), w') →
  crc_check arr = Ret true →
  arr !! 1%nat = Some a1 →
  let func_id := Z.land a1 0x1f in
  func_id = 0x1c ∨ func_id = 0x1d ∨ 0x0b ≤ func_id ≤ 0x0f →
  read_response w
  = (Ret (RPair func_id (VInt x)),
     World (rx w') (tx w') (wlimit w')
       (stdout w' ++ if (func_id =? 0x1c) || (func_id =? 0x1d)
                     then [Unknown_address_read func_id] else [])) ∧
  last arr = Some x.
Proof.
  intros Hread Hcrc Ha1 func_id Hfid.
  destruct (read_frame_delivered _ _ _ _ _ Hread)
    as (Hlen & _ & Hlast & Hx & (b0 & b1 & r & -> & Hel)).
  injection Ha1 as ->. split; [|done].
  rewrite (read_response_delivered _ _ _ Hread), <- Hlen.
  rewrite decode_response_crc_ok by done. fold func_id.
  assert (func_id = 28 ∨ func_id = 29 ∨ func_id = 11 ∨ func_id = 12 ∨
          func_id = 13 ∨ func_id = 14 ∨ func_id = 15) as Hcases by lia.
  destruct Hcases as [->|[->|[->|[->|[->|[->| ->]]]]]];
    try reflexivity;
    unfold dispatch, ret; cbn; destruct w'; cbn; by rewrite app_nil_r.
Qed.

Lemma undecoded_function_ids_witness :
  read_response (World (Some <$> [0x00; 0xbc; 0x80; 0x80; 0xbc]) [] 0 [])
  = (Ret (RPair 0x1c (VInt 0xbc)), World [] [] 0 [Unknown_address_read 0x1c]) ∧
  last [0x00; 0xbc; 0x80; 0x80; 0xbc] = Some 0xbc.
Proof.
  apply (undecoded_function_ids
           (World (Some <$> [0x00; 0xbc; 0x80; 0x80; 0xbc]) [] 0 [])
           (World [] [] 0 []) [0x00; 0xbc; 0x80; 0x80; 0xbc] 5 0xbc 0xbc);
    [reflexivity|reflexivity|reflexivity|].
  left. reflexivity.
Defined.

(** ** What [read_response] can raise *)

Section Raises.

Lemma crc_check_nonempty (a : Z) (l : list Z) :
  ∃ b, crc_check (a :: l) = Ret b.
Proof.
  unfold crc_check, getlast.
  destruct (last (a :: l)) as [c|] eqn:Hlast; [by eexists|].
  by apply last_None in Hlast.
Qed.

(** A delivered frame, spelled out by its length. *)
Lemma delivered_cases arr el x :
  delivered arr el x →
  (∃ a0 a1 a2 a3, arr = [a0; a1; a2; a3] ∧ Z.land (a1 ≫ 5) 0x03 = 0) ∨
  (∃ a0 a1 a2 a3 a4, arr = [a0; a1; a2; a3; a4] ∧ Z.land (a1 ≫ 5) 0x03 = 1) ∨
  (∃ a0 a1 a2 a3 a4 a5,
      arr = [a0; a1; a2; a3; a4; a5] ∧ Z.land (a1 ≫ 5) 0x03 = 2) ∨
  (∃ a0 a1 a2 a3 a4 a5 a6,
      arr = [a0; a1; a2; a3; a4; a5; a6] ∧ Z.land (a1 ≫ 5) 0x03 = 3).
Proof.
  intros (Hlen & Hrange & _ & _ & (a0 & a1 & r & -> & Hel)).
  rewrite <- Hlen in Hel, Hrange. unfold len in Hel, Hrange. cbn [length] in *.
  destruct r as [|a2 [|a3 [|a4 [|a5 [|a6 [|a7 r]]]]]]; cbn [length] in *;
    try lia.
  - left. eexists _, _, _, _. split; [done|lia].
  - right. left. eexists _, _, _, _, _. split; [done|lia].
  - right. right. left. eexists _, _, _, _, _, _. split; [done|lia].
  - right. right. right. eexists _, _, _, _, _, _, _. split; [done|lia].
Qed.

Local Ltac run_dispatch Hcode :=
  unfold dispatch, verify_length, read_signed_val, slice_2_m1, getitem,
    bind, lift, print, ret, raise;
  cbn [lookup list_lookup drop removelast];
  rewrite Hcode;
  intros Hrun; repeat case_match; simplify_eq;
  eexists _, _; (split; [reflexivity|]); (split; [lia|]); reflexivity.

(** On a delivered frame the decoder raises nothing but
    [DMMExceptionUnexpectedLength], with two different length codes,
    and before it prints anything. *)
Lemma dispatch_delivered_raises func_id arr el x v (w w' : world) ex :
  delivered arr el x →
  dispatch func_id arr v w = (Raise ex, w') →
  ∃ n expected_n,
    ex = DMMExceptionUnexpectedLength n expected_n ∧ n ≠ expected_n ∧ w' = w.
Proof.
  intros Hd.
  destruct (delivered_cases _ _ _ Hd)
    as [(a0 & a1 & a2 & a3 & -> & Hcode)
       |[(a0 & a1 & a2 & a3 & a4 & -> & Hcode)
        |[(a0 & a1 & a2 & a3 & a4 & a5 & -> & Hcode)
         |(a0 & a1 & a2 & a3 & a4 & a5 & a6 & -> & Hcode)]]];
    run_dispatch Hcode.
Qed.

(** An exception of [read_response] comes from the decoder, on a
    delivered frame. *)
Lemma read_response_raise_inv (w w' : world) (ex : exn) :
  read_response w = (Raise ex, w') →
  ∃ arr el x w1 func_id,
    read_frame w = (Ret (Completed arr el x), w1) ∧
    dispatch func_id arr (VInt x) w1 = (Raise ex, w').
Proof.
  unfold read_response, bind at 1.
  destruct (read_frame w) as [[e|?] w1] eqn:Hread;
    [|unfold read_frame in Hread; by destruct (read_loop _ _ _)].
  destruct e as [|arr el x]; [done|].
  destruct (read_frame_delivered _ _ _ _ _ Hread)
    as (Hlen & _ & _ & _ & (a0 & a1 & r & -> & _)).
  rewrite <- Hlen.
  destruct (crc_check_nonempty a0 (a1 :: r)) as [[|] Hcrc].
  - rewrite decode_response_crc_ok by done.
    destruct (dispatch _ _ _ _) as [[v|ex'] w2] eqn:Hrun; [done|].
    intros [= <- <-]. by eexists _, _, _, _, _.
  - by rewrite decode_response_crc_bad.
Qed.


(** [read_frame] only moves the receive queue. *)
Lemma read_frame_world (w w' : world) (e : loop_exit) :
  read_frame w = (Ret e, w') → w' = set_rx w (rx w').
Proof.
  unfold read_frame. destruct (read_loop _ _ _). by intros [= _ <-].
Qed.

End Raises.

(** X7. The only exception that [read_response] raises is
    [DMMExceptionUnexpectedLength], with a received length code
    different from the expected one, and it is raised before anything
    is printed or written: on the frames its loop delivers no index is
    out of range and no local is unbound. *)
Theorem read_response_raises_only_UnexpectedLength (w w' : world) (ex : exn) :
  read_response w = (Raise ex, w') →
  ∃ n expected_n,
    ex = DMMExceptionUnexpectedLength n expected_n ∧
    n ≠ expected_n ∧
    stdout w' = stdout w ∧ tx w' = tx w.
Proof.
  intros (arr & el & x & w1 & f & Hread & Hrun)%read_response_raise_inv.
  destruct (dispatch_delivered_raises f arr el x _ _ _ _
              (read_frame_delivered _ _ _ _ _ Hread) Hrun)
    as (n & e & -> & Hne & ->).
  exists n, e. rewrite (read_frame_world _ _ _ Hread). by repeat split.
Qed.

Lemma read_response_raises_only_UnexpectedLength_witness :
  ∃ n expected_n,
    DMMExceptionUnexpectedLength 0 3 = DMMExceptionUnexpectedLength n expected_n ∧
    n ≠ expected_n ∧
    stdout (World [] [] 0 []) = [] ∧ tx (World [] [] 0 []) = [].
Proof.
  apply (read_response_raises_only_UnexpectedLength
           (World (Some <$> [0x00; 0x98; 0x80; 0x98]) [] 0 [])
           (World [] [] 0 [])).
  reflexivity.
Defined.

(** ** Framing on a noisy or silent line *)

Section Framing.

(** Bytes that do not complete a frame leave the loop running on what
    follows them. *)
Lemma read_loop_prefix (junk : list Z) :
  ∀ (arr : list Z) (expected_len : Z),
    read_loop (Some <$> junk) arr expected_len = (Timed_out, []) →
    ∀ q, ∃ arr' expected_len',
      read_loop ((Some <$> junk) ++ q) arr expected_len
      = read_loop q arr' expected_len'.
Proof.
  induction junk as [|b junk IH]; intros arr el Hjunk q; [by eexists _, _|].
  cbn [fmap list_fmap app] in *.
  destruct (Z.eq_dec (Z.land b 0x80) 0) as [Hstart|Hcont].
  - rewrite read_loop_start in * by done. by apply IH.
  - rewrite read_loop_cont in * by done.
    destruct (len (arr ++ [b]) =? 2); [by apply IH|].
    destruct (len (arr ++ [b]) =? el); [done|by apply IH].
Qed.

(** Continuation bytes that stop short of the expected length, then a
    timeout. *)
Lemma read_loop_short (rest : list Z) :
  ∀ (arr : list Z) (expected_len : Z) (q : list (option Z)),
    Forall (λ b, Z.land b 0x80 ≠ 0) rest →
    2 ≤ len arr →
    len arr + len rest < expected_len →
    read_loop ((Some <$> rest) ++ None :: q) arr expected_len = (Timed_out, q).
Proof.
  induction rest as [|b rest IH]; intros arr el q Hall Harr Hlen; [done|].
  apply Forall_cons in Hall as [Hb Hall].
  assert (len (b :: rest) = 1 + len rest) as Hcons
    by (unfold len; cbn [length]; lia).
  assert (0 ≤ len rest) as Hpos by (unfold len; lia).
  cbn [fmap list_fmap app]. rewrite read_loop_cont, len_snoc by done.
  replace (len arr + 1 =? 2) with false by (symmetry; apply Z.eqb_neq; lia).
  replace (len arr + 1 =? el) with false by (symmetry; apply Z.eqb_neq; lia).
  apply IH; [done|..]; rewrite len_snoc; lia.
Qed.

Lemma len_take_lt (l : list Z) (k : nat) :
  (k < length l)%nat → len (take k l) = Z.of_nat k.
Proof. intros H. unfold len. rewrite length_take. lia. Qed.

End Framing.

(** X8. The reader resynchronises: bytes that do not complete a frame
    by themselves, followed by a frame in wire format, are dropped at
    the frame's start byte, and the loop of [read_response] delivers
    the frame, byte for byte. *)
Theorem reader_resynchronises
    (junk frame : list Z) (w : world) (q : list (option Z)) :
  read_loop (Some <$> junk) [] 0 = (Timed_out, []) →
  wire_frame frame →
  rx w = (Some <$> junk) ++ (Some <$> frame) ++ q →
  ∃ x, last frame = Some x ∧
       read_frame w = (Ret (Completed frame (len frame) x), set_rx w q).
Proof.
  intros Hjunk Hframe Hrx.
  destruct (read_loop_prefix junk [] 0 Hjunk ((Some <$> frame) ++ q))
    as (arr' & el' & Hskip).
  destruct (read_loop_wire_frame frame arr' el' q Hframe) as (x & Hx & Hrun).
  exists x. split; [done|]. unfold read_frame. by rewrite Hrx, Hskip, Hrun.
Qed.

(** The tail of a five-byte frame, then an [Is_MainGain] frame. *)
Lemma reader_resynchronises_witness :
  ∃ x, last [0x00; 0x90; 0x85; 0x95] = Some x ∧
       read_frame
         (World (Some <$> [0xa5; 0x81; 0xc0; 0x00; 0x90; 0x85; 0x95]) [] 0 [])
       = (Ret (Completed [0x00; 0x90; 0x85; 0x95] 4 x), World [] [] 0 []).
Proof.
  apply (reader_resynchronises [0xa5; 0x81; 0xc0] [0x00; 0x90; 0x85; 0x95]
           (World (Some <$> [0xa5; 0x81; 0xc0; 0x00; 0x90; 0x85; 0x95]) [] 0 [])
           []); [reflexivity| |reflexivity].
  exists 0x00, 0x90, [0x85; 0x95]. split; [reflexivity|]. split; [reflexivity|].
  split; [|reflexivity].
  repeat (apply Forall_cons; split; [by cbv|]). by apply Forall_nil.
Defined.

(** X9. When the line falls silent inside a frame, that is, after a
    proper prefix of a frame in wire format, [read_response] returns
    [False]: the bytes read so far are dropped and the port is left
    after the timeout. *)
Theorem truncated_frame_returns_False
    (frame : list Z) (k : nat) (w : world) (q : list (option Z)) :
  wire_frame frame →
  (k < length frame)%nat →
  rx w = (Some <$> take k frame) ++ None :: q →
  read_response w = (Ret RFalse, set_rx w q).
Proof.
  intros (b0 & b1 & rest & -> & Hb0 & Hall & Hlen) Hk Hrx.
  apply Forall_cons in Hall as [Hb1 Hall].
  assert (read_loop (rx w) [] 0 = (Timed_out, q)) as Hloop.
  { rewrite Hrx. destruct k as [|[|k]]; [done| |].
    - cbn [take fmap list_fmap app]. by rewrite read_loop_start.
    - cbn [take fmap list_fmap app].
      rewrite read_loop_start, read_loop_cont by done.
      cbn [app]. change (len [b0; b1] =? 2) with true. cbv iota.
      cbn [length] in Hk.
      apply read_loop_short.
      + by apply Forall_take.
      + done.
      + rewrite len_take_lt by lia. rewrite <- Hlen.
        unfold len. cbn [length]. change (Z.of_nat (length [b0; b1])) with 2. lia. }
  unfold read_response, bind, read_frame. by rewrite Hloop.
Qed.

Lemma truncated_frame_returns_False_witness :
  read_response (World [Some 0x00; Some 0xf8; Some 0x81; None; Some 0x82] [] 0 [])
  = (Ret RFalse, World [Some 0x82] [] 0 []).
Proof.
  apply (truncated_frame_returns_False
           [0x00; 0xf8; 0x81; 0x82; 0x83; 0x84; 0x82] 3
           (World [Some 0x00; Some 0xf8; Some 0x81; None; Some 0x82] [] 0 [])
           [Some 0x82]); [|cbn; lia|reflexivity].
  exists 0x00, 0xf8, [0x81; 0x82; 0x83; 0x84; 0x82].
  split; [reflexivity|]. split; [reflexivity|]. split; [|reflexivity].
  repeat (apply Forall_cons; split; [by cbv|]). by apply Forall_nil.
Defined.

(** ** More on the codec *)

Section Checksum.

Lemma sum_from (l : list Z) : ∀ a, fold_left Z.add l a = a + sum l.
Proof.
  unfold sum. induction l as [|b l IH]; intros a; cbn [fold_left]; [lia|].
  rewrite IH, (IH (0 + b)). lia.
Qed.

Lemma sum_app (l1 l2 : list Z) : sum (l1 ++ l2) = sum l1 + sum l2.
Proof. unfold sum at 1. by rewrite fold_left_app, sum_from. Qed.

Lemma sum_cons (b : Z) (l : list Z) : sum (b :: l) = b + sum l.
Proof. unfold sum at 1. cbn [fold_left]. rewrite sum_from. lia. Qed.

Lemma land_lxor_low7 (a b : Z) :
  Z.land (Z.lxor a b) 0x7f = Z.lxor (Z.land a 0x7f) (Z.land b 0x7f).
Proof.
  apply Z.bits_inj'. intros n Hn.
  rewrite Z.land_spec, !Z.lxor_spec, !Z.land_spec.
  by destruct (Z.testbit a n), (Z.testbit b n), (Z.testbit 0x7f n).
Qed.

(** The receiver's test compares sum and checksum byte modulo 128. *)
Lemma crc_check_snoc (p : list Z) (c : Z) :
  crc_check (p ++ [c]) = Ret (bool_decide (sum p `mod` 128 = c `mod` 128)).
Proof.
  unfold crc_check, getlast, but_last. rewrite last_snoc, removelast_last.
  f_equal. rewrite land_lxor_low7, !low7_mod.
  destruct (Z.eqb_spec (Z.lxor (sum p `mod` 128) (c `mod` 128)) 0) as [H|H];
    symmetry.
  - apply bool_decide_eq_true. by apply Z.lxor_eq.
  - apply bool_decide_eq_false. intros Heq. apply H.
    rewrite Heq. apply Z.lxor_nilpotent.
Qed.

(** The bytes of a request are in [range(256)]. *)
Lemma lor_0x80_low (y : Z) : 0 ≤ y < 128 → Z.lor 0x80 y = 128 + y.
Proof.
  intros Hy. rewrite <- Z.lxor_lor, <- Z.add_nocarry_lxor; try done;
    rewrite Z.land_comm; by apply start_small.
Qed.

Lemma byte_ok_lor (y : Z) :
  0 ≤ y < 128 → (0 <=? Z.lor 0x80 y) && (Z.lor 0x80 y <? 256) = true.
Proof.
  intros Hy. rewrite lor_0x80_low by done.
  apply andb_true_iff. split; [apply Z.leb_le|apply Z.ltb_lt]; lia.
Qed.

Lemma byte_ok_checksum (s : Z) :
  (0 <=? Z.lor 0x80 (Z.land s 0x7f)) && (Z.lor 0x80 (Z.land s 0x7f) <? 256) = true.
Proof. apply byte_ok_lor, land_0x7f_range. Qed.

End Checksum.

(** X10. What the checksum test sees of a damaged frame: when one byte
    of a frame that passes [crc_check] (the checksum byte included) is
    replaced, the test still passes exactly when the new byte has the
    same seven low bits; a flipped top bit goes unnoticed. *)
Theorem crc_check_one_byte_changed (pre post : list Z) (b b' : Z) :
  crc_check (pre ++ b :: post) = Ret true →
  crc_check (pre ++ b' :: post)
  = Ret (bool_decide (Z.land b 0x7f = Z.land b' 0x7f)).
Proof.
  rewrite !low7_mod.
  destruct (decide (post = [])) as [->|Hne].
  - rewrite !crc_check_snoc. intros [= H%bool_decide_eq_true]. f_equal.
    apply bool_decide_ext. lia.
  - destruct (exists_last Hne) as (post' & c & ->).
    assert (∀ z, pre ++ z :: post' ++ [c] = (pre ++ z :: post') ++ [c]) as Hassoc
      by (intros z; by rewrite <- app_assoc).
    rewrite !Hassoc, !crc_check_snoc.
    rewrite !sum_app, !sum_cons.
    intros [= H%bool_decide_eq_true]. f_equal. apply bool_decide_ext.
    revert H. generalize (sum pre) (sum post'). intros s1 s2 H. split; intros H'.
    + Z.div_mod_to_equations. lia.
    + Z.div_mod_to_equations. lia.
Qed.

Lemma crc_check_one_byte_changed_witness :
  crc_check [0x00; 0x90; 0x86; 0x95] = Ret false ∧
  crc_check [0x00; 0x90; 0x05; 0x95] = Ret true.
Proof.
  split.
  - apply (crc_check_one_byte_changed [0x00; 0x90] [0x95] 0x85 0x86). reflexivity.
  - apply (crc_check_one_byte_changed [0x00; 0x90] [0x95] 0x85 0x05). reflexivity.
Defined.

Section Requests.

Lemma builds_write_packet drive_id m packet :
  builds drive_id m packet → ∀ w, m w = write_packet packet w.
Proof.
  intros [f2 _|f Hf| |rpm] w; try reflexivity.
  unfold general_read, verify_func_id, bind at 1. by rewrite Hf.
Qed.

Lemma builds_bytearray drive_id m packet :
  builds drive_id m packet →
  bytearray packet
  = if (0 <=? drive_id) && (drive_id <? 256) then Ret packet else Raise ValueError.
Proof.
  intros [f2 Hf2|f Hf| |rpm];
    unfold bytearray, general_read2_packet, general_read_packet,
      set_Config_packet, set_speed_packet, add_checksum;
    cbn [app forallb]; rewrite Z.lor_0_l;
    (destruct ((0 <=? drive_id) && (drive_id <? 256)); [|done]);
    rewrite ?byte_ok_checksum; cbn [andb].
  - change (Z.lor 128 (0 ≪ 5)) with 128. by rewrite byte_ok_lor by lia.
  - done.
  - done.
  - done.
Qed.

Lemma drive_id_byte (drive_id : Z) :
  0 ≤ drive_id ≤ 255 → (0 <=? drive_id) && (drive_id <? 256) = true.
Proof.
  intros Hd. apply andb_true_iff. split; [apply Z.leb_le|apply Z.ltb_lt]; lia.
Qed.

(** A request on a port that takes the whole packet. *)
Lemma builds_ok drive_id m packet (w : world) :
  builds drive_id m packet →
  0 ≤ drive_id ≤ 255 →
  (length packet ≤ wlimit w)%nat →
  m w = (Ret tt, World (rx w) (tx w ++ packet) (wlimit w) (stdout w)).
Proof.
  intros Hb Hd Hw. rewrite (builds_write_packet _ _ _ Hb).
  apply write_packet_ok; [|done].
  by rewrite (builds_bytearray _ _ _ Hb), drive_id_byte.
Qed.

End Requests.

(** X11. What a request method does with its packet, for a drive
    address in [0, 255]: on a port that takes the whole packet it
    writes exactly the packet and returns; on a port that takes fewer
    bytes it raises [DMMExceptionTruncatedWrite] with the number
    written and the packet length, after those bytes went out.  The
    receive queue and the console are not touched. *)
Theorem request_write_outcome
    (drive_id : Z) (m : M unit) (packet : list Z) (w : world) :
  builds drive_id m packet →
  0 ≤ drive_id ≤ 255 →
  m w
  = (if decide (length packet ≤ wlimit w)%nat
     then Ret tt
     else Raise (DMMExceptionTruncatedWrite (Z.of_nat (wlimit w)) (len packet)),
     World (rx w) (tx w ++ take (wlimit w) packet) (wlimit w) (stdout w)).
Proof.
  intros Hb Hd. rewrite (builds_write_packet _ _ _ Hb).
  unfold write_packet, bind, lift. rewrite (builds_bytearray _ _ _ Hb).
  rewrite drive_id_byte by done.
  unfold serial_write, len. rewrite length_take.
  destruct (decide (length packet ≤ wlimit w)%nat) as [Hle|Hgt].
  - replace (wlimit w `min` length packet)%nat with (length packet) by lia.
    by rewrite Z.eqb_refl.
  - replace (wlimit w `min` length packet)%nat with (wlimit w) by lia.
    replace (Z.of_nat (wlimit w) =? Z.of_nat (length packet)) with false
      by (symmetry; apply Z.eqb_neq; lia).
    done.
Qed.

Lemma request_write_outcome_witness :
  set_speed 3 50 (World [] [] 5 [])
  = (Raise (DMMExceptionTruncatedWrite 5 7),
     World [] [0x03; 0xea; 0x80; 0x80; 0x80] 5 []) ∧
  general_read 3 0x1e (World [] [] 5 [])
  = (Ret tt, World [] [0x03; 0x8e; 0x9e; 0xaf] 5 []).
Proof.
  split.
  - apply (request_write_outcome 3 _ _ (World [] [] 5 [])
             (builds_set_speed 3 50)). lia.
  - apply (request_write_outcome 3 _ _ (World [] [] 5 [])
             (builds_general_read 3 0x1e eq_refl)). lia.
Defined.

(** X12. With a drive address outside [0, 255] every request method
    raises [ValueError] (from [bytearray]) and writes nothing. *)
Theorem request_bad_drive_id
    (drive_id : Z) (m : M unit) (packet : list Z) (w : world) :
  builds drive_id m packet →
  ¬ (0 ≤ drive_id ≤ 255) →
  m w = (Raise ValueError, w).
Proof.
  intros Hb Hd. rewrite (builds_write_packet _ _ _ Hb).
  unfold write_packet, bind, lift. rewrite (builds_bytearray _ _ _ Hb).
  replace ((0 <=? drive_id) && (drive_id <? 256)) with false; [done|].
  symmetry. apply andb_false_iff.
  destruct (Z.leb_spec 0 drive_id); [right; apply Z.ltb_ge; lia|by left].
Qed.

Lemma request_bad_drive_id_witness :
  general_read2 256 0x18 (World [] [] 4 []) = (Raise ValueError, World [] [] 4 []).
Proof.
  apply (request_bad_drive_id 256 _ _ (World [] [] 4 [])
           (builds_general_read2 256 0x18 ltac:(lia))). lia.
Defined.

(** X13. [verify_func_id] accepts exactly the codes of the table
    [dyn_fids]; for any other code [general_read] raises
    [DMMExceptionUnknownFunctionID] with that code and writes nothing. *)
Theorem general_read_accepts_dyn_fids (drive_id func_id : Z) (w : world) :
  (legal_func_id func_id = true ↔ ∃ name, dyn_fids !! name = Some func_id) ∧
  ((¬ ∃ name, dyn_fids !! name = Some func_id) →
   general_read drive_id func_id w
   = (Raise (DMMExceptionUnknownFunctionID func_id), w)).
Proof.
  assert (legal_func_id func_id = true ↔ ∃ name, dyn_fids !! name = Some func_id)
    as Hiff.
  { split.
    - unfold legal_func_id.
      intros [[H1%Z.leb_le H2%Z.leb_le]%andb_true_iff | ->%Z.eqb_eq]%orb_true_iff.
      + assert (func_id = 16 ∨ func_id = 17 ∨ func_id = 18 ∨ func_id = 19 ∨
                func_id = 20 ∨ func_id = 21 ∨ func_id = 22 ∨ func_id = 23 ∨
                func_id = 24 ∨ func_id = 25 ∨ func_id = 26 ∨ func_id = 27)
          as Hcases by lia.
        destruct Hcases
          as [->|[->|[->|[->|[->|[->|[->|[->|[->|[->|[->| ->]]]]]]]]]]].
        * by exists "Is_MainGain".
        * by exists "Is_SpeedGain".
        * by exists "Is_IntGain".
        * by exists "Is_TrqCons".
        * by exists "Is_HighSpeed".
        * by exists "Is_HighAccel".
        * by exists "Is_Drive_ID".
        * by exists "Is_Pos_OnRange".
        * by exists "Is_GearNumber".
        * by exists "Is_Status".
        * by exists "Is_Config".
        * by exists "Is_AbsPos32".
      + by exists "Is_TrqCurrent".
    - intros (name & Hname). unfold dyn_fids in Hname.
      apply elem_of_list_to_map_2 in Hname.
      repeat (apply elem_of_cons in Hname as [[= _ ->]|Hname]; [done|]).
      by apply elem_of_nil in Hname. }
  split; [done|]. intros Hnot.
  unfold general_read, verify_func_id, bind.
  destruct (legal_func_id func_id); [|done].
  exfalso. apply Hnot. by apply Hiff.
Qed.

Lemma general_read_accepts_dyn_fids_witness :
  (legal_func_id 0x1c = true ↔ ∃ name, dyn_fids !! name = Some 0x1c) ∧
  general_read 0 0x1c (World [] [] 4 [])
  = (Raise (DMMExceptionUnknownFunctionID 0x1c), World [] [] 4 []).
Proof.
  destruct (general_read_accepts_dyn_fids 0 0x1c (World [] [] 4 [])) as [Hiff Hraise].
  split; [exact Hiff|]. apply Hraise.
  intros Hex. apply Hiff in Hex. discriminate Hex.
Defined.

(** ** More on the command session *)

Section Exchange.

(** The loop over a run of responses: it stops at the first one that
    matches, or with the last index. *)
Lemma check_loop_responses e (l : list (Z * value)) :
  ∀ (r : list Z) iv (w w' : world) func_id v,
    responses w (l ++ [(func_id, v)]) w' →
    Forall (λ p, p.1 ≠ e) l →
    (length l < length r)%nat →
    func_id = e ∨ length r = S (length l) →
    ∃ i, i ∈ r ∧ check_loop e r iv w = (Ret (Some (i, v)), w').
Proof.
  induction l as [|[f0 v0] l IH]; intros r iv w w' f v Hresp Hall Hlen Hlast.
  - cbn [app] in Hresp. inversion Hresp as [|? w1 ? ? ? ? H1 Hnil]; subst.
    inversion Hnil; subst.
    destruct r as [|i r]; [cbn in Hlen; lia|].
    exists i. split; [by left|].
    destruct (Z.eq_dec f e) as [->|Hne]; [by apply check_loop_match|].
    destruct Hlast as [?|Hr]; [done|].
    destruct r; [|cbn in Hr; lia].
    by rewrite (check_loop_mismatch _ _ _ _ _ _ _ _ H1 Hne).
  - cbn [app] in Hresp. inversion Hresp as [|? w1 ? ? ? ? H1 Hrest]; subst.
    apply Forall_cons in Hall as [Hf0 Hall]. cbn [fst] in Hf0.
    destruct r as [|i r]; [cbn in Hlen; lia|]. cbn [length] in *.
    rewrite (check_loop_mismatch _ _ _ _ _ _ _ _ H1 Hf0).
    destruct (IH r (Some (i, v0)) w1 w' f v Hrest Hall) as (j & Hj & Hrun);
      [lia|destruct Hlast; [by left|right; lia]|].
    exists j. split; [by right|done].
Qed.

Lemma length_range (n : Z) : length (range n) = Z.to_nat n.
Proof. unfold range. by rewrite length_fmap, length_seq. Qed.




(** A request by [general_read2] and the wait for the answer. *)
Lemma exchange_general_read2 (drive_id h e : Z) (v : value)
    (w : world) (q : list (option Z)) :
  0 ≤ drive_id ≤ 255 → 0 ≤ h ≤ 31 → (4 ≤ wlimit w)%nat →
  (∀ w0, rx w0 = rx w → read_response w0 = (Ret (RPair e v), set_rx w0 q)) →
  bind (general_read2 drive_id h)
    (λ _, check_response e max_attempts_default) w
  = (Ret v, exchanged w (general_read2_packet drive_id h) q).
Proof.
  intros Hd Hh Hw Hanswer. unfold bind at 1.
  rewrite (builds_ok drive_id _ _ w (builds_general_read2 drive_id h Hh) Hd)
    by (cbn; lia).
  unfold check_response, bind. change (range max_attempts_default) with [0; 1; 2].
  rewrite (check_loop_match _ _ _ _ _ _ _
             (Hanswer (World (rx w) (tx w ++ _) (wlimit w) (stdout w)) eq_refl)).
  done.
Qed.

(** The same for a request by [general_read]. *)
Lemma exchange_general_read (drive_id e : Z) (v : value)
    (w : world) (q : list (option Z)) :
  0 ≤ drive_id ≤ 255 → legal_func_id e = true → (4 ≤ wlimit w)%nat →
  (∀ w0, rx w0 = rx w → read_response w0 = (Ret (RPair e v), set_rx w0 q)) →
  bind (general_read drive_id e)
    (λ _, check_response e max_attempts_default) w
  = (Ret v, exchanged w (general_read_packet drive_id e) q).
Proof.
  intros Hd He Hw Hanswer. unfold bind at 1.
  rewrite (builds_ok drive_id _ _ w (builds_general_read drive_id e He) Hd)
    by (cbn; lia).
  unfold check_response, bind. change (range max_attempts_default) with [0; 1; 2].
  rewrite (check_loop_match _ _ _ _ _ _ _
             (Hanswer (World (rx w) (tx w ++ _) (wlimit w) (stdout w)) eq_refl)).
  done.
Qed.

Lemma start_byte_wire (a0 b1 : Z) (rest : list Z) :
  0 ≤ a0 < 128 →
  Forall (λ b, Z.land b 0x80 ≠ 0) (b1 :: rest) →
  len (a0 :: b1 :: rest) = 4 + Z.land (b1 ≫ 5) 0x03 →
  wire_frame (a0 :: b1 :: rest).
Proof.
  intros Ha0 Hall Hlen. exists a0, b1, rest. repeat split; try done.
  by apply start_small.
Qed.

(** A frame in wire format whose checksum test passes, at the head of
    the receive queue, is what [read_response] decodes. *)
Lemma read_response_wire (a0 a1 : Z) (rest : list Z)
    (w : world) (q : list (option Z)) :
  wire_frame (a0 :: a1 :: rest) →
  crc_check (a0 :: a1 :: rest) = Ret true →
  rx w = (Some <$> a0 :: a1 :: rest) ++ q →
  ∃ x, read_response w
       = match dispatch (Z.land a1 0x1f) (a0 :: a1 :: rest) (VInt x) (set_rx w q) with
         | (Ret v, w') => (Ret (RPair (Z.land a1 0x1f) v), w')
         | (Raise e, w') => (Raise e, w')
         end.
Proof.
  intros Hwire Hcrc Hrx.
  destruct (read_loop_wire_frame _ [] 0 q Hwire) as (x & _ & Hrun).
  exists x. unfold read_response, bind at 1, read_frame.
  rewrite Hrx, Hrun. by apply decode_response_crc_ok.
Qed.

End Exchange.

(** X14. What [check_response] returns, for any bound: when the
    responses before the [k]-th carry another function identifier than
    the expected one, and the [k]-th either carries it or is the
    [max_attempts]-th, the value of the [k]-th response is returned and
    nothing after it is read. *)
Theorem check_response_first_match
    (e max_attempts : Z) (w w' : world)
    (l : list (Z * value)) (func_id : Z) (v : value) :
  responses w (l ++ [(func_id, v)]) w' →
  Forall (λ p, p.1 ≠ e) l →
  len l < max_attempts →
  func_id = e ∨ len l + 1 = max_attempts →
  check_response e max_attempts w = (Ret v, w').
Proof.
  intros Hresp Hall Hlen Hlast. unfold len in *.
  destruct (check_loop_responses e l (range max_attempts) None w w' func_id v)
    as (i & Hi & Hrun); [done|done|..].
  - rewrite length_range. lia.
  - destruct Hlast as [?|Hn]; [by left|right]. rewrite length_range. lia.
  - unfold check_response, bind. rewrite Hrun.
    apply elem_of_range in Hi.
    replace (i =? max_attempts) with false by (symmetry; apply Z.eqb_neq; lia).
    done.
Qed.

(** A bound of five: four frames of other kinds, then the answer. *)
Lemma check_response_first_match_witness :
  let frame k := [0x00; 0x91; 0x80 + k; 0x91 + k] in
  let w n :=
    World (Some <$> concat (frame <$> drop n [1; 2; 3; 4])
                    ++ [0x00; 0x90; 0x85; 0x95; 0x00; 0x90]) [] 0 [] in
  check_response 0x10 5 (w 0%nat)
  = (Ret (VInt 5), World (Some <$> [0x00; 0x90]) [] 0 []).
Proof.
  intros frame w.
  apply (check_response_first_match 0x10 5 (w 0%nat) _
           [(0x11, VInt 1); (0x11, VInt 2); (0x11, VInt 3); (0x11, VInt 4)]
           0x10 (VInt 5)).
  - apply (responses_cons _ (w 1%nat)); [reflexivity|].
    apply (responses_cons _ (w 2%nat)); [reflexivity|].
    apply (responses_cons _ (w 3%nat)); [reflexivity|].
    apply (responses_cons _ (w 4%nat)); [reflexivity|].
    apply (responses_cons _ (World (Some <$> [0x00; 0x90]) [] 0 []));
      [reflexivity|].
    apply responses_nil.
  - repeat (apply Forall_cons; split; [by cbv|]). by apply Forall_nil.
  - cbv. reflexivity.
  - left. reflexivity.
Defined.



Section Answers.

Lemma low7_of_byte (g : Z) : 0 ≤ g ≤ 127 → Z.land (Z.lor 0x80 g) 0x7f = g.
Proof.
  intros Hg. rewrite Z.land_lor_distr_l. change (Z.land 0x80 0x7f) with 0.
  rewrite Z.lor_0_l, low7_mod. apply Z.mod_small. lia.
Qed.

(** The answer to a one-byte read, as [read_response] decodes it. *)
Lemma scalar_answer (m : Z → M value) (host dyn a0 g : Z)
    (w : world) (q : list (option Z)) :
  scalar_read m host dyn →
  0 ≤ a0 < 128 → 0 ≤ g ≤ 127 →
  rx w = (Some <$> add_checksum [a0; Z.lor 0x80 dyn; Z.lor 0x80 g]) ++ q →
  read_response w = (Ret (RPair dyn (VInt g)), set_rx w q).
Proof.
  intros Hm Ha0 Hg Hrx.
  pose proof (add_checksum_relation [a0; Z.lor 0x80 dyn; Z.lor 0x80 g])
    as [Hcrc _].
  unfold add_checksum in *. cbn [app] in *.
  set (c := Z.lor 128 (Z.land _ 127)) in *.
  destruct (read_response_wire a0 (Z.lor 128 dyn) [Z.lor 128 g; c] w q)
    as (x & ->); [|done|done|].
  - apply start_byte_wire; [done| |by destruct Hm].
    repeat (apply Forall_cons; split; [apply continuation_lor|]).
    by apply Forall_nil.
  - destruct Hm;
      match goal with
      | |- context [dispatch (Z.land ?b 31)] =>
          let f := eval cbv in (Z.land b 31) in change (Z.land b 31) with f
      end;
      unfold dispatch;
      cbn [Z.leb Z.ltb Z.eqb Z.compare Pos.compare Pos.compare_cont Pos.eqb
           andb orb];
      unfold bind at 1; rewrite verify_length_ok by reflexivity;
      unfold bind, lift, ret; cbn [getitem lookup list_lookup];
      by rewrite low7_of_byte.
Qed.

(** The answer to a signed read. *)
Lemma signed_answer (m : Z → M value) (dyn a0 p : Z)
    (w : world) (q : list (option Z)) :
  signed_read m dyn →
  0 ≤ a0 < 128 → -2 ^ 27 ≤ p < 2 ^ 27 →
  rx w = (Some <$> add_checksum
                     ([a0; Z.lor (Z.lor 0x80 (3 ≪ 5)) dyn] ++ groups28 p)) ++ q →
  read_response w = (Ret (RPair dyn (VInt p)), set_rx w q).
Proof.
  intros Hm Ha0 Hp Hrx.
  pose proof (add_checksum_relation
                ([a0; Z.lor (Z.lor 0x80 (3 ≪ 5)) dyn] ++ groups28 p))
    as [Hcrc _].
  unfold add_checksum in *.
  set (c := Z.lor 128 (Z.land (sum _) 127)) in *.
  change (([a0; Z.lor (Z.lor 128 (3 ≪ 5)) dyn] ++ groups28 p) ++ [c])
    with (a0 :: Z.lor (Z.lor 128 (3 ≪ 5)) dyn :: groups28 p ++ [c]) in *.
  destruct (read_response_wire a0 (Z.lor (Z.lor 128 (3 ≪ 5)) dyn)
              (groups28 p ++ [c]) w q) as (x & ->); [|done|done|].
  - apply start_byte_wire; [done| |by destruct Hm].
    unfold groups28. cbn [app].
    apply Forall_cons; split;
      [rewrite <- Z.lor_assoc; apply continuation_lor|].
    repeat (apply Forall_cons; split; [apply continuation_lor|]).
    by apply Forall_nil.
  - assert (Z.land (Z.lor (Z.lor 128 (3 ≪ 5)) dyn) 31 = dyn) as ->
      by (by destruct Hm).
    rewrite dispatch_signed by (destruct Hm; [by left|by right]).
    by rewrite read_signed_val_groups28.
Qed.

End Answers.

(** X16. The one-byte reads end to end ([read_MainGain],
    [read_SpeedGain], [read_IntGain], [read_TrqCons], [read_HighSpeed],
    [read_HighAccel], [read_Pos_OnRange]): for a drive address in
    [0, 255], on a port that takes four bytes, when the drive answers
    with the frame of the drive-side code of the method carrying
    [g] in [0, 127], the method writes the [general_read2] request of
    its host-side code, reads exactly the answer and returns [g]. *)
Theorem scalar_read_exchange
    (m : Z → M value) (host dyn drive_id a0 g : Z)
    (w : world) (q : list (option Z)) :
  scalar_read m host dyn →
  0 ≤ drive_id ≤ 255 →
  0 ≤ a0 < 128 →
  0 ≤ g ≤ 127 →
  (4 ≤ wlimit w)%nat →
  rx w = (Some <$> add_checksum [a0; Z.lor 0x80 dyn; Z.lor 0x80 g]) ++ q →
  m drive_id w
  = (Ret (VInt g), exchanged w (general_read2_packet drive_id host) q).
Proof.
  intros Hm Hd Ha0 Hg Hw Hrx.
  assert (0 ≤ host ≤ 31) as Hhost by (destruct Hm; lia).
  assert (m drive_id w
          = bind (general_read2 drive_id host)
              (λ _, check_response dyn max_attempts_default) w) as ->
    by (by destruct Hm).
  apply exchange_general_read2; [done..|].
  intros w0 Hw0. apply (scalar_answer m host dyn a0); [done..|]. by rewrite Hw0.
Qed.

Lemma scalar_read_exchange_witness :
  read_HighAccel 1
    (World (Some <$> [0x01; 0x95; 0xa0; 0xb6; 0x00]) [0xff] 4 [])
  = (Ret (VInt 32), World [Some 0x00] [0xff; 0x01; 0x9d; 0x80; 0x9e] 4 []).
Proof.
  apply (scalar_read_exchange read_HighAccel 0x1d 0x15 1 0x01 32
           (World (Some <$> [0x01; 0x95; 0xa0; 0xb6; 0x00]) [0xff] 4 [])
           [Some 0x00] scalar_HighAccel); [lia|lia|lia|cbn; lia|reflexivity].
Defined.

(** X17. The signed reads end to end ([read_AbsPos32],
    [read_TrqCurrent]): for a drive address in [0, 255], on a port that
    takes four bytes, when the drive answers with a seven-byte frame
    of the requested code carrying a number of [-2^27, 2^27) in four
    seven-bit groups, most significant first, the method writes the
    [general_read] request, reads exactly the answer and returns the
    number. *)
Theorem signed_read_exchange
    (m : Z → M value) (dyn drive_id a0 p : Z)
    (w : world) (q : list (option Z)) :
  signed_read m dyn →
  0 ≤ drive_id ≤ 255 →
  0 ≤ a0 < 128 →
  -2 ^ 27 ≤ p < 2 ^ 27 →
  (4 ≤ wlimit w)%nat →
  rx w = (Some <$> add_checksum
                     ([a0; Z.lor (Z.lor 0x80 (3 ≪ 5)) dyn] ++ groups28 p)) ++ q →
  m drive_id w
  = (Ret (VInt p), exchanged w (general_read_packet drive_id dyn) q).
Proof.
  intros Hm Hd Ha0 Hp Hw Hrx.
  assert (legal_func_id dyn = true) as Hdyn by (by destruct Hm).
  assert (m drive_id w
          = bind (general_read drive_id dyn)
              (λ _, check_response dyn max_attempts_default) w) as ->
    by (by destruct Hm).
  apply exchange_general_read; [done..|].
  intros w0 Hw0. apply (signed_answer m dyn a0); [done..|]. by rewrite Hw0.
Qed.

Lemma signed_read_exchange_witness :
  read_AbsPos32 0
    (World (Some <$> [0x00; 0xfb; 0xff; 0xff; 0xfe; 0xb8; 0xaf]) [] 4 [])
  = (Ret (VInt (-200)), World [] [0x00; 0x8e; 0x9b; 0xa9] 4 []).
Proof.
  apply (signed_read_exchange read_AbsPos32 0x1b 0 0x00 (-200)
           (World (Some <$> [0x00; 0xfb; 0xff; 0xff; 0xfe; 0xb8; 0xaf]) [] 4 [])
           [] signed_AbsPos32); [lia|lia|lia|cbn; lia|reflexivity].
Defined.

(** X18. Every read method is its request followed by the wait: for a
    drive address in [0, 255] on a port that takes four bytes, the
    method looks up its codes without a [KeyError], writes its
    four-byte request without an exception, and then behaves as
    [check_response] with its drive-side code and the default bound,
    whatever that does. *)
Theorem read_method_request_then_wait
    (m : Z → M value) (packet : Z → list Z) (dyn drive_id : Z) (w : world) :
  read_method m packet dyn →
  0 ≤ drive_id ≤ 255 →
  (4 ≤ wlimit w)%nat →
  length (packet drive_id) = 4%nat ∧
  m drive_id w
  = check_response dyn max_attempts_default
      (World (rx w) (tx w ++ packet drive_id) (wlimit w) (stdout w)).
Proof.
  intros Hm Hd Hw. split; [by destruct Hm|].
  assert (∃ req, builds drive_id req (packet drive_id) ∧
                 m drive_id w
                 = bind req (λ _, check_response dyn max_attempts_default) w)
    as (req & Hreq & ->).
  { destruct Hm;
      first [ by (eexists; split;
                  [apply builds_general_read2; lia|reflexivity])
            | by (eexists; split;
                  [by apply builds_general_read|reflexivity]) ]. }
  unfold bind. rewrite (builds_ok _ _ _ w Hreq Hd); [done|].
  destruct Hm; cbn; lia.
Qed.

(** [read_Status] with nothing on the line: the request goes out, the
    wait ends in the [TypeError] of the timeout. *)
Lemma read_method_request_then_wait_witness :
  length (general_read2_packet 2 0x09) = 4%nat ∧
  read_Status 2 (World [] [] 4 [])
  = check_response 0x19 max_attempts_default
      (World [] [0x02; 0x89; 0x80; 0x8b] 4 []).
Proof.
  apply (read_method_request_then_wait read_Status _ 0x19 2 (World [] [] 4 [])
           method_Status); [lia|cbn; lia].
Defined.

(** X19. [read_GearNumber] end to end: when the drive answers with a
    seven-byte [Is_GearNumber] frame carrying two numbers of
    [0, 2^14), each as two seven-bit groups, most significant first,
    the method writes its request, reads exactly the answer and
    returns the two numbers. *)
Theorem read_GearNumber_exchange
    (drive_id a0 n1 n2 : Z) (w : world) (q : list (option Z)) :
  0 ≤ drive_id ≤ 255 →
  0 ≤ a0 < 128 →
  0 ≤ n1 < 2 ^ 14 →
  0 ≤ n2 < 2 ^ 14 →
  (4 ≤ wlimit w)%nat →
  rx w = (Some <$> add_checksum
                     [a0; Z.lor (Z.lor 0x80 (3 ≪ 5)) 0x18;
                      Z.lor 0x80 (n1 ≫ 7); Z.lor 0x80 (Z.land n1 0x7f);
                      Z.lor 0x80 (n2 ≫ 7); Z.lor 0x80 (Z.land n2 0x7f)]) ++ q →
  read_GearNumber drive_id w
  = (Ret (VList [n1; n2]), exchanged w (general_read2_packet drive_id 0x1f) q).
Proof.
  intros Hd Ha0 Hn1 Hn2 Hw Hrx.
  change (read_GearNumber drive_id w)
    with (bind (general_read2 drive_id 0x1f)
            (λ _, check_response 0x18 max_attempts_default) w).
  apply exchange_general_read2; [done|lia|done|].
  intros w0 Hw0. rewrite <- Hw0 in Hrx. clear Hw0.
  match type of Hrx with
  | _ = (Some <$> add_checksum ?p) ++ _ =>
      pose proof (add_checksum_relation p) as [Hcrc _]
  end.
  unfold add_checksum in *. cbn [app] in *.
  set (c := Z.lor 128 (Z.land (sum _) 127)) in *.
  match type of Hrx with
  | _ = (Some <$> ?b0 :: ?b1 :: ?rest) ++ _ =>
      destruct (read_response_wire b0 b1 rest w0 q) as (x & ->);
        [|done|done|]
  end.
  - apply start_byte_wire; [done| |reflexivity].
    apply Forall_cons; split; [by cbv|].
    repeat (apply Forall_cons; split; [apply continuation_lor|]).
    by apply Forall_nil.
  - change (Z.land (Z.lor (Z.lor 128 (3 ≪ 5)) 24) 31) with 0x18.
    unfold dispatch.
    cbn [Z.leb Z.ltb Z.eqb Z.compare Pos.compare Pos.compare_cont Pos.eqb
         andb orb].
    unfold bind at 1. rewrite verify_length_ok by reflexivity.
    unfold bind, lift, ret. cbn [getitem lookup list_lookup].
    change (2 ^ 14) with 16384 in *.
    assert (∀ n, 0 ≤ n < 16384 →
                 Z.lor (Z.land (Z.lor 128 (n ≫ 7)) 127 ≪ 7)
                   (Z.land (Z.lor 128 (Z.land n 127)) 127) = n) as Hgroups.
    { intros n Hn. rewrite <- shift7_add_lor, (low7_of_byte (n ≫ 7)).
      - rewrite low7_lor, low7_mod.
        rewrite Z.shiftl_mul_pow2, Z.shiftr_div_pow2 by lia.
        change (2 ^ 7) with 128. Z.div_mod_to_equations. lia.
      - rewrite Z.shiftr_div_pow2 by lia. change (2 ^ 7) with 128.
        Z.div_mod_to_equations. lia. }
    by rewrite !Hgroups.
Qed.

Lemma read_GearNumber_exchange_witness :
  read_GearNumber 0
    (World (Some <$> [0x00; 0xf8; 0xa0; 0x80; 0x83; 0xf4; 0x8f]) [] 4 [])
  = (Ret (VList [4096; 500]), World [] [0x00; 0x9f; 0x80; 0x9f] 4 []).
Proof.
  apply (read_GearNumber_exchange 0 0x00 4096 500
           (World (Some <$> [0x00; 0xf8; 0xa0; 0x80; 0x83; 0xf4; 0x8f]) [] 4 [])
           []); [lia|lia|lia|lia|cbn; lia|reflexivity].
Defined.
